(** * The IAM user-policy-attachment reconciliation adapter, and the
      generated deep copy of the Secrets Manager parameters

    Sources embedded here:
    - [pkg/controller/identity/iamuserpolicyattachment/controller.go]:
      the [external] adapter with its four lifecycle methods;
    - the generated deep-copy functions of [apis/secretsmanager/v1alpha1]
      ([SecretParameters], [SecretSelector], [Tag]).

    Go values are rendered as follows.  A Go [error] is an [option error]
    ([None] is [nil]).  In the adapter a [*string] is only ever read, so it
    is an [option string]; the managed object, which the methods mutate
    through a pointer, is passed in and handed back in the [Outcome]; every
    call that leaves the adapter (provider facade, cluster store) is
    appended to a log together with the state the object had when the call
    was issued.  In the deep copy, where sharing is the question, pointers
    are locations of an explicit heap. *)

From Stdlib Require Import ZArith.
From stdpp Require Import base decidable option list strings gmap.

Open Scope string_scope.
Open Scope list_scope.

(** ** Errors *)

Module Errors.

(** The error values the adapter can meet: [errors.New], the provider's
    [awserr.New code message nil], and [errors.Wrap]. *)
Inductive error : Type :=
| New (msg : string)
| AwsErr (code message : string)
| Wrapped (cause : error) (msg : string).

#[export] Instance error_eq_dec : EqDecision error.
Proof.
  intros x y; unfold Decision; decide equality; apply String.eq_dec.
Defined.

(** [errors.Wrap] of github.com/pkg/errors: [nil] stays [nil]. *)
Definition errors_Wrap (err : option error) (msg : string) : option error :=
  match err with
  | None => None
  | Some cause => Some (Wrapped cause msg)
  end.

(** [errors.Cause]: the innermost error under the wrapping. *)
Fixpoint Cause (err : error) : error :=
  match err with
  | Wrapped cause _ => Cause cause
  | _ => err
  end.

(** [resource.Ignore] of crossplane-runtime: errors satisfying [ignored] become
    [nil], all others are returned unmodified.  On a [nil] error either
    branch of the library function yields [nil]. *)
Definition Ignore (ignored : error -> bool) (err : option error) : option error :=
  match err with
  | None => None
  | Some e => if ignored e then None else Some e
  end.

(** Modelled from the spec: [awsclient.Wrap] is defined in [pkg/clients],
    outside the sources at hand.  "Every provider error is wrapped with a
    short static tag identifying which operation failed, preserving the
    underlying cause"; an absent error stays absent, as the adapter's
    error-free returns pass through it. *)
Definition Wrap (err : option error) (msg : string) : option error :=
  match err with
  | None => None
  | Some cause => Some (Wrapped cause msg)
  end.

Definition ErrCodeNoSuchEntityException : string := "NoSuchEntity".

(** Modelled from the spec: [iam.IsErrorNotFound] is defined in
    [pkg/clients/iam], outside the sources at hand.  It is the predicate
    "supplied by the facade" that tells "not found" from other errors; the
    provider error with the no-such-entity code is the not-found one. *)
Definition iam_IsErrorNotFound (err : error) : bool :=
  match err with
  | AwsErr code _ => bool_decide (code = ErrCodeNoSuchEntityException)
  | _ => false
  end.

End Errors.
Export Errors.

(** ** Conditions (xpv1 of crossplane-runtime) *)

Module xpv1.

Record Condition : Type := mkCondition {
  CondType : string;
  CondStatus : string;
  LastTransitionTime : Z;
  Reason : string;
  Message : string
}.

#[export] Instance Condition_eq_dec : EqDecision Condition.
Proof. solve_decision. Defined.

Definition TypeReady : string := "Ready".
Definition ConditionTrue : string := "True".
Definition ConditionFalse : string := "False".
Definition ReasonAvailable : string := "Available".
Definition ReasonCreating : string := "Creating".
Definition ReasonDeleting : string := "Deleting".

(** The three condition constructors; [now] is the reading of the clock
    ([metav1.Now()]) at the call. *)
Definition Available (now : Z) : Condition :=
  mkCondition TypeReady ConditionTrue now ReasonAvailable EmptyString.
Definition Creating (now : Z) : Condition :=
  mkCondition TypeReady ConditionFalse now ReasonCreating EmptyString.
Definition Deleting (now : Z) : Condition :=
  mkCondition TypeReady ConditionFalse now ReasonDeleting EmptyString.

(** [Condition.Equal]: equality up to the transition time. *)
Definition Equal (c other : Condition) : bool :=
  bool_decide (CondType c = CondType other)
  && bool_decide (CondStatus c = CondStatus other)
  && bool_decide (Reason c = Reason other)
  && bool_decide (Message c = Message other).

(** The inner loop of [ConditionedStatus.SetConditions] for one new
    condition: every existing condition of the same type is kept when it
    is [Equal] to the new one and overwritten otherwise; the flag tells
    whether one was met. *)
Fixpoint replaceCondition (new : Condition) (cs : list Condition)
  : list Condition * bool :=
  match cs with
  | [] => ([], false)
  | existing :: rest =>
      let '(rest', found) := replaceCondition new rest in
      if bool_decide (CondType existing = CondType new)
      then ((if Equal existing new then existing else new) :: rest', true)
      else (existing :: rest', found)
  end.

Definition setCondition (cs : list Condition) (new : Condition)
  : list Condition :=
  let '(cs', found) := replaceCondition new cs in
  if found then cs' else cs ++ [new].

(** [ConditionedStatus.SetConditions(c...)]. *)
Definition SetConditions (cs : list Condition) (c : list Condition)
  : list Condition :=
  foldl setCondition cs c.

(** A condition is set when the list holds one [Equal] to it and no other
    of its type. *)
Definition ConditionSet (c : Condition) (cs : list Condition) : Prop :=
  Exists (fun x => Equal x c = true) cs
  /\ Forall (fun x => CondType x = CondType c -> Equal x c = true) cs.

End xpv1.

(** ** The provider facade (awsiam) and the managed resource (v1alpha1) *)

Module awsiam.

Record AttachedPolicy : Type := mkAttachedPolicy {
  PolicyArn : option string;
  PolicyName : option string
}.

Record ListAttachedUserPoliciesInput : Type := mkListInput {
  ListUserName : option string
}.

Record ListAttachedUserPoliciesOutput : Type := mkListOutput {
  AttachedPolicies : list AttachedPolicy
}.

Record AttachUserPolicyInput : Type := mkAttachInput {
  AttachPolicyArn : option string;
  AttachUserName : option string
}.

Record DetachUserPolicyInput : Type := mkDetachInput {
  DetachPolicyArn : option string;
  DetachUserName : option string
}.

#[export] Instance AttachedPolicy_eq_dec : EqDecision AttachedPolicy.
Proof. solve_decision. Defined.

End awsiam.

Module aws.
(** [aws.String] and [aws.StringValue] of the SDK. *)
Definition String (v : string) : option string := Some v.
Definition StringValue (p : option string) : string :=
  match p with
  | Some v => v
  | None => EmptyString
  end.
End aws.

Module v1alpha1.

(** The type declarations live in [apis/identity/v1alpha1], outside the
    sources at hand; the records keep what the controller touches. *)
Record IAMUserPolicyAttachmentParameters : Type := mkParameters {
  PolicyARN : string;
  UserName : string
}.

Record IAMUserPolicyAttachmentObservation : Type := mkObservation {
  AttachedPolicyARN : string
}.

Record IAMUserPolicyAttachmentSpec : Type := mkSpec {
  ForProvider : IAMUserPolicyAttachmentParameters
}.

Record IAMUserPolicyAttachmentStatus : Type := mkStatus {
  Conditions : list xpv1.Condition;
  AtProvider : IAMUserPolicyAttachmentObservation
}.

Record IAMUserPolicyAttachment : Type := mkAttachment {
  Name : string;
  Spec : IAMUserPolicyAttachmentSpec;
  Status : IAMUserPolicyAttachmentStatus
}.

#[export] Instance Parameters_eq_dec :
  EqDecision IAMUserPolicyAttachmentParameters.
Proof. solve_decision. Defined.

(** [cr.SetConditions] and [cr.Status.SetConditions] both reach the
    conditioned status embedded in the status. *)
Definition SetConditions (cr : IAMUserPolicyAttachment)
    (c : list xpv1.Condition) : IAMUserPolicyAttachment :=
  mkAttachment (Name cr) (Spec cr)
    (mkStatus (xpv1.SetConditions (Conditions (Status cr)) c)
              (AtProvider (Status cr))).

Definition setForProvider (cr : IAMUserPolicyAttachment)
    (p : IAMUserPolicyAttachmentParameters) : IAMUserPolicyAttachment :=
  mkAttachment (Name cr) (mkSpec p) (Status cr).

Definition setAtProvider (cr : IAMUserPolicyAttachment)
    (o : IAMUserPolicyAttachmentObservation) : IAMUserPolicyAttachment :=
  mkAttachment (Name cr) (Spec cr)
    (mkStatus (Conditions (Status cr)) o).

End v1alpha1.

Import awsiam v1alpha1.

(** Modelled from the spec: [iam.LateInitializeUserPolicy] is defined in
    [pkg/clients/iam], outside the sources at hand.  Late initialization
    "copies provider-observed values into any desired-state fields left
    unset by the user" and "never overwrites user-set values"; the policy
    ARN is the one desired field with an observed counterpart. *)
Definition iam_LateInitializeUserPolicy
    (p : IAMUserPolicyAttachmentParameters) (policy : AttachedPolicy)
  : IAMUserPolicyAttachmentParameters :=
  mkParameters
    (if bool_decide (PolicyARN p = EmptyString)
     then aws.StringValue (PolicyArn policy)
     else PolicyARN p)
    (UserName p).

(** ** The adapter (package iamuserpolicyattachment) *)

Definition errUnexpectedObject : string :=
  "The managed resource is not an UserPolicyAttachment resource".
Definition errGet : string := "failed to get UserPolicyAttachments for user".
Definition errAttach : string := "failed to attach the policy to user".
Definition errDetach : string := "failed to detach the policy to user".
Definition errKubeUpdateFailed : string :=
  "cannot late initialize UserPolicyAttachment".

(** A value of the interface [resource.Managed]: the nil interface, a
    pointer to an [IAMUserPolicyAttachment] (never a nil one: the reconciler
    hands over the object it fetched), or a managed resource of some other
    kind (of which only the kind and the conditions are kept). *)
Inductive Managed : Type :=
| NilManaged
| UserPolicyAttachment (cr : IAMUserPolicyAttachment)
| OtherKind (kind : string) (conditions : list xpv1.Condition).

(** [iam.UserPolicyAttachmentClient]: building a request and sending it is
    one function from the input to the response or the error. *)
Record UserPolicyAttachmentClient : Type := mkClient {
  ListAttachedUserPoliciesRequest :
    ListAttachedUserPoliciesInput -> ListAttachedUserPoliciesOutput + error;
  AttachUserPolicyRequest : AttachUserPolicyInput -> option error;
  DetachUserPolicyRequest : DetachUserPolicyInput -> option error
}.

(** The part of [client.Client] the adapter uses: [Update(ctx, obj)]. *)
Record kubeClient : Type := mkKube {
  kubeUpdate : IAMUserPolicyAttachment -> option error
}.

Record external : Type := mkExternal {
  client : UserPolicyAttachmentClient;
  kube : kubeClient
}.

(** The calls that leave the adapter. *)
Inductive Call : Type :=
| CallListAttachedUserPolicies (input : ListAttachedUserPoliciesInput)
| CallAttachUserPolicy (input : AttachUserPolicyInput)
| CallDetachUserPolicy (input : DetachUserPolicyInput)
| CallKubeUpdate (obj : IAMUserPolicyAttachment).

(** A logged call, with the state of the managed object at that moment. *)
Record Event : Type := mkEvent {
  call : Call;
  seen : IAMUserPolicyAttachment
}.

(** [managed.ExternalObservation], [ExternalCreation], [ExternalUpdate]. *)
Definition ConnectionDetails : Type := list (string * string).

Record ExternalObservation : Type := mkExternalObservation {
  ResourceExists : bool;
  ResourceUpToDate : bool;
  ObservationConnectionDetails : ConnectionDetails
}.

Record ExternalCreation : Type := mkExternalCreation {
  CreationConnectionDetails : ConnectionDetails
}.

Record ExternalUpdate : Type := mkExternalUpdate {
  UpdateConnectionDetails : ConnectionDetails
}.

(** What a lifecycle method leaves behind: its two results, the managed
    object after the call, and the calls it issued, oldest first. *)
Record Outcome (R : Type) : Type := mkOutcome {
  result : R;
  err : option error;
  object : Managed;
  calls : list Event
}.
Arguments mkOutcome {R} _ _ _ _.
Arguments result {R} _.
Arguments err {R} _.
Arguments object {R} _.
Arguments calls {R} _.

(** The request [Observe] sends for a given object, and its entry in the
    log. *)
Definition listInput (cr : IAMUserPolicyAttachment) : ListAttachedUserPoliciesInput :=
  mkListInput (aws.String (UserName (ForProvider (Spec cr)))).

Definition listEvent (cr : IAMUserPolicyAttachment) : Event :=
  mkEvent (CallListAttachedUserPolicies (listInput cr)) cr.

Section Adapter.

(** The two helpers of [pkg/clients/iam] the adapter calls, and the clock
    read by the condition constructors. *)
Variable IsErrorNotFound : error -> bool.
Variable LateInitializeUserPolicy :
  IAMUserPolicyAttachmentParameters -> AttachedPolicy ->
  IAMUserPolicyAttachmentParameters.
Variable now : Z.

(** The loop over [observed.AttachedPolicies]: index and value of the first
    policy whose ARN is the desired one. *)
Definition findAttachedPolicy (cr : IAMUserPolicyAttachment)
    (observed : ListAttachedUserPoliciesOutput) : option (nat * AttachedPolicy) :=
  list_find
    (fun policy => PolicyARN (ForProvider (Spec cr)) = aws.StringValue (PolicyArn policy))
    (AttachedPolicies observed).

(** Lines 112-118: late initialization, and the write to the cluster store
    when it changed the desired state.  Yields the object, the error of the
    write (if any) and the calls issued. *)
Definition lateInitialize (e : external) (cr : IAMUserPolicyAttachment)
    (attachedPolicyObject : AttachedPolicy)
  : IAMUserPolicyAttachment * option error * list Event :=
  let current := ForProvider (Spec cr) in
  let cr := setForProvider cr
              (LateInitializeUserPolicy (ForProvider (Spec cr)) attachedPolicyObject) in
  if bool_decide (current = ForProvider (Spec cr))
  then (cr, None, [])
  else (cr, kubeUpdate (kube e) cr, [mkEvent (CallKubeUpdate cr) cr]).

Definition Observe (e : external) (mgd : Managed) : Outcome ExternalObservation :=
  match mgd with
  | UserPolicyAttachment cr =>
      let listed := [listEvent cr] in
      match ListAttachedUserPoliciesRequest (client e) (listInput cr) with
      | inr err =>
          mkOutcome (mkExternalObservation false false [])
            (Wrap (Ignore IsErrorNotFound (Some err)) errGet) mgd listed
      | inl observed =>
          match findAttachedPolicy cr observed with
          | None =>
              mkOutcome (mkExternalObservation false false []) None mgd listed
          | Some (_, attachedPolicyObject) =>
              match lateInitialize e cr attachedPolicyObject with
              | (cr, Some err, written) =>
                  mkOutcome (mkExternalObservation false false [])
                    (errors_Wrap (Some err) errKubeUpdateFailed)
                    (UserPolicyAttachment cr) (listed ++ written)
              | (cr, None, written) =>
                  let cr := SetConditions cr [xpv1.Available now] in
                  let cr := setAtProvider cr
                              (mkObservation (aws.StringValue (PolicyArn attachedPolicyObject))) in
                  mkOutcome (mkExternalObservation true true []) None
                    (UserPolicyAttachment cr) (listed ++ written)
              end
          end
      end
  | _ =>
      mkOutcome (mkExternalObservation false false [])
        (Some (New errUnexpectedObject)) mgd []
  end.

Definition Create (e : external) (mgd : Managed) : Outcome ExternalCreation :=
  match mgd with
  | UserPolicyAttachment cr =>
      let cr := SetConditions cr [xpv1.Creating now] in
      let input := mkAttachInput (aws.String (PolicyARN (ForProvider (Spec cr))))
                                 (aws.String (UserName (ForProvider (Spec cr)))) in
      let err := AttachUserPolicyRequest (client e) input in
      mkOutcome (mkExternalCreation []) (Wrap err errAttach)
        (UserPolicyAttachment cr) [mkEvent (CallAttachUserPolicy input) cr]
  | _ => mkOutcome (mkExternalCreation []) (Some (New errUnexpectedObject)) mgd []
  end.

(** Both parameters of [Update] are blank in the source. *)
Definition Update (e : external) (mgd : Managed) : Outcome ExternalUpdate :=
  mkOutcome (mkExternalUpdate []) None mgd [].

Definition Delete (e : external) (mgd : Managed) : Outcome unit :=
  match mgd with
  | UserPolicyAttachment cr =>
      let cr := SetConditions cr [xpv1.Deleting now] in
      let input := mkDetachInput (aws.String (PolicyARN (ForProvider (Spec cr))))
                                 (aws.String (UserName (ForProvider (Spec cr)))) in
      let err := DetachUserPolicyRequest (client e) input in
      mkOutcome tt (Wrap (Ignore IsErrorNotFound err) errDetach)
        (UserPolicyAttachment cr) [mkEvent (CallDetachUserPolicy input) cr]
  | _ => mkOutcome tt (Some (New errUnexpectedObject)) mgd []
  end.

End Adapter.

(** ** Generated deep copies (apis/secretsmanager/v1alpha1)

    Sharing is what a deep copy is about, so pointers are kept: a pointer is
    a location ([None] is [nil]) in a heap of cells, [new] takes the next
    free location, and the copy functions run in a small state-and-failure
    monad over the heap.  A function [in.DeepCopyInto(out)] is rendered as a
    computation from the value of [*in] to the value it leaves in [*out]. *)

Module deepcopy.

Abbreviation loc := nat.

(** [xpv1.Reference], [xpv1.SecretReference] and [Tag] hold no pointers. *)
Record Reference : Type := mkReference { RefName : string }.

Record SecretReference : Type := mkSecretReference {
  SecretName : string;
  SecretNamespace : string
}.

Record Tag : Type := mkTag { TagKey : string; TagValue : string }.

(** [xpv1.Selector]: a map (a reference in Go) and a [*bool]. *)
Record Selector : Type := mkSelector {
  MatchLabels : option loc;
  MatchControllerRef : option loc
}.

(** [SecretSelector] embeds a [*xpv1.SecretReference]. *)
Record SecretSelector : Type := mkSecretSelector {
  SecretReferencePtr : option loc;
  Key : string
}.

(** A slice header: backing array, first index, length. *)
Record Slice : Type := mkSlice { array : loc; offset : nat; len : nat }.

Record SecretParameters : Type := mkSecretParameters {
  Region : string;
  Description : option loc;
  KmsKeyID : option loc;
  KmsKeyRef : option loc;
  KmsKeySelector : option loc;
  SecretRef : option loc;
  ForceDeleteWithoutRecovery : option loc;
  RecoveryWindowInDays : option loc;
  Tags : option Slice
}.

Inductive cell : Type :=
| VString (s : string)
| VBool (b : bool)
| VInt64 (z : Z)
| VReference (r : Reference)
| VSecretReference (r : SecretReference)
| VLabels (m : gmap string string)
| VSelector (s : Selector)
| VSecretSelector (s : SecretSelector)
| VTags (a : list Tag)
| VSecretParameters (p : SecretParameters).

Definition asString (c : cell) : option string :=
  match c with VString s => Some s | _ => None end.
Definition asBool (c : cell) : option bool :=
  match c with VBool b => Some b | _ => None end.
Definition asInt64 (c : cell) : option Z :=
  match c with VInt64 z => Some z | _ => None end.
Definition asReference (c : cell) : option Reference :=
  match c with VReference r => Some r | _ => None end.
Definition asSecretReference (c : cell) : option SecretReference :=
  match c with VSecretReference r => Some r | _ => None end.
Definition asLabels (c : cell) : option (gmap string string) :=
  match c with VLabels m => Some m | _ => None end.
Definition asSelector (c : cell) : option Selector :=
  match c with VSelector s => Some s | _ => None end.
Definition asSecretSelector (c : cell) : option SecretSelector :=
  match c with VSecretSelector s => Some s | _ => None end.
Definition asTags (c : cell) : option (list Tag) :=
  match c with VTags a => Some a | _ => None end.
Definition asSecretParameters (c : cell) : option SecretParameters :=
  match c with VSecretParameters p => Some p | _ => None end.

(** *** The heap monad *)

Abbreviation heap := (list cell).

Definition M (A : Type) : Type := heap -> option (A * heap).

Definition ret {A} (a : A) : M A := fun h => Some (a, h).

Definition bind {A B} (m : M A) (k : A -> M B) : M B :=
  fun h => match m h with
           | Some (a, h') => k a h'
           | None => None
           end.

Notation "x <- m ;; k" := (bind m (fun x => k))
  (at level 100, m at next level, right associativity).

(** [new(T)]: a fresh cell holding the zero value. *)
Definition new (zero : cell) : M loc :=
  fun h => Some (length h, h ++ [zero]).

(** [*l] read at the type picked by [as_]; reading a dangling or ill-typed
    location, which Go's typing rules out, has no result. *)
Definition load {A} (as_ : cell -> option A) (l : loc) : M A :=
  fun h => match h !! l with
           | Some c => match as_ c with
                       | Some a => Some (a, h)
                       | None => None
                       end
           | None => None
           end.

(** [*l = c]. *)
Definition store (l : loc) (c : cell) : M unit :=
  fun h => if decide (l < length h) then Some (tt, <[l:=c]> h) else None.

(** *** The copy functions *)

(** [if in.F != nil { *out = new(T); **out = **in }] for a [T] without
    pointers. *)
Definition copyFlat {A} (as_ : cell -> option A) (inj : A -> cell) (zero : A)
    (in_ : option loc) : M (option loc) :=
  match in_ with
  | None => ret None
  | Some l =>
      out <- new (inj zero) ;;
      v <- load as_ l ;;
      _ <- store out (inj v) ;;
      ret (Some out)
  end.

Definition copyString := copyFlat asString VString EmptyString.
Definition copyBool := copyFlat asBool VBool false.
Definition copyInt64 := copyFlat asInt64 VInt64 0%Z.
Definition copyReference := copyFlat asReference VReference (mkReference EmptyString).
Definition copySecretReference :=
  copyFlat asSecretReference VSecretReference (mkSecretReference EmptyString EmptyString).

(** The map branch: a fresh map is made and every entry of the source map
    is assigned into it, one key at a time. *)
Definition copyLabels (in_ : option loc) : M (option loc) :=
  match in_ with
  | None => ret None
  | Some l =>
      out <- new (VLabels empty) ;;
      m <- load asLabels l ;;
      _ <- store out (VLabels (map_fold (fun key val acc => <[key:=val]> acc) empty m)) ;;
      ret (Some out)
  end.

(** [Selector.DeepCopyInto] (generated, crossplane-runtime).  Here and
    below, the shallow assignment of the whole struct followed by the
    replacement of each non-nil pointer field is rendered by building the
    result from the copied fields: a nil field is copied as nil, every other
    plain field is taken over. *)
Definition Selector_DeepCopyInto (in_ : Selector) : M Selector :=
  labels <- copyLabels (MatchLabels in_) ;;
  ctrl <- copyBool (MatchControllerRef in_) ;;
  ret (mkSelector labels ctrl).

Definition SecretSelector_DeepCopyInto (in_ : SecretSelector) : M SecretSelector :=
  ref <- copySecretReference (SecretReferencePtr in_) ;;
  ret (mkSecretSelector ref (Key in_)).

(** A non-nil pointer to a struct with pointers of its own: [new(T)], then
    the [DeepCopyInto] of [T] from the old cell into the new one. *)
Definition copyWith {A} (as_ : cell -> option A) (inj : A -> cell) (zero : A)
    (DeepCopyInto : A -> M A) (in_ : option loc) : M (option loc) :=
  match in_ with
  | None => ret None
  | Some l =>
      out <- new (inj zero) ;;
      v <- load as_ l ;;
      v' <- DeepCopyInto v ;;
      _ <- store out (inj v') ;;
      ret (Some out)
  end.

Definition copySelector :=
  copyWith asSelector VSelector (mkSelector None None) Selector_DeepCopyInto.
Definition copySecretSelector :=
  copyWith asSecretSelector VSecretSelector (mkSecretSelector None EmptyString)
    SecretSelector_DeepCopyInto.

(** The elements a slice denotes, when it lies within its array. *)
Definition sliceElements (a : list Tag) (s : Slice) : option (list Tag) :=
  if decide (offset s + len s <= length a)
  then Some (take (len s) (drop (offset s) a))
  else None.

(** [make([]Tag, n)] and the builtin [copy(dst, src)]. *)
Definition make_Tags (n : nat) : M Slice :=
  a <- new (VTags (replicate n (mkTag EmptyString EmptyString))) ;;
  ret (mkSlice a 0 n).

Definition copy_Tags (dst src : Slice) : M nat :=
  from <- load asTags (array src) ;;
  match sliceElements from src with
  | None => fun _ => None
  | Some elems =>
      to <- load asTags (array dst) ;;
      let n := min (len dst) (len src) in
      _ <- store (array dst)
             (VTags (take (offset dst) to ++ take n elems
                     ++ drop (offset dst + n) to)) ;;
      ret n
  end.

(** The [Tags] branch: a non-nil slice is remade at its length and filled
    with [copy]. *)
Definition copyTags (in_ : option Slice) : M (option Slice) :=
  match in_ with
  | None => ret None
  | Some s =>
      out <- make_Tags (len s) ;;
      _ <- copy_Tags out s ;;
      ret (Some out)
  end.

(** [SecretParameters.DeepCopyInto], field by field in the order of the
    source. *)
Definition SecretParameters_DeepCopyInto (in_ : SecretParameters)
  : M SecretParameters :=
  description <- copyString (Description in_) ;;
  kmsKeyID <- copyString (KmsKeyID in_) ;;
  kmsKeyRef <- copyReference (KmsKeyRef in_) ;;
  kmsKeySelector <- copySelector (KmsKeySelector in_) ;;
  secretRef <- copySecretSelector (SecretRef in_) ;;
  force <- copyBool (ForceDeleteWithoutRecovery in_) ;;
  window <- copyInt64 (RecoveryWindowInDays in_) ;;
  tags <- copyTags (Tags in_) ;;
  ret (mkSecretParameters (Region in_) description kmsKeyID kmsKeyRef
         kmsKeySelector secretRef force window tags).

Definition zeroSecretParameters : SecretParameters :=
  mkSecretParameters EmptyString None None None None None None None None.

(** [SecretParameters.DeepCopy]: nil for nil, otherwise [new] and
    [DeepCopyInto]. *)
Definition SecretParameters_DeepCopy (in_ : option loc) : M (option loc) :=
  match in_ with
  | None => ret None
  | Some l =>
      out <- new (VSecretParameters zeroSecretParameters) ;;
      p <- load asSecretParameters l ;;
      p' <- SecretParameters_DeepCopyInto p ;;
      _ <- store out (VSecretParameters p') ;;
      ret (Some out)
  end.

(** *** What a pointer denotes

    The value reached through a pointer, with all pointers followed, and
    the locations read on the way. *)

Record SelectorValue : Type := mkSelectorValue {
  MatchLabelsValue : option (gmap string string);
  MatchControllerRefValue : option bool
}.

Record SecretSelectorValue : Type := mkSecretSelectorValue {
  SecretReferenceValue : option SecretReference;
  KeyValue : string
}.

Record SecretParametersValue : Type := mkSecretParametersValue {
  RegionValue : string;
  DescriptionValue : option string;
  KmsKeyIDValue : option string;
  KmsKeyRefValue : option Reference;
  KmsKeySelectorValue : option SelectorValue;
  SecretRefValue : option SecretSelectorValue;
  ForceDeleteWithoutRecoveryValue : option bool;
  RecoveryWindowInDaysValue : option Z;
  TagsValue : option (list Tag)
}.

(** Reading through a pointer: [nil] denotes nothing and occupies nothing;
    otherwise the cell must hold a [T] (picked by [as_]) whose fields are
    read on by [fields]. *)
Definition readPtr {A V} (as_ : cell -> option A)
    (fields : heap -> A -> option (V * list loc)) (h : heap) (p : option loc)
  : option (option V * list loc) :=
  match p with
  | None => Some (None, [])
  | Some l =>
      match h !! l with
      | Some c =>
          match as_ c with
          | Some a =>
              match fields h a with
              | Some (v, ls) => Some (Some v, l :: ls)
              | None => None
              end
          | None => None
          end
      | None => None
      end
  end.

Definition flat {A} (h : heap) (a : A) : option (A * list loc) := Some (a, []).

Definition readFlat {A} (as_ : cell -> option A) := readPtr as_ (@flat A).

Definition readSelectorFields (h : heap) (s : Selector)
  : option (SelectorValue * list loc) :=
  match readFlat asLabels h (MatchLabels s),
        readFlat asBool h (MatchControllerRef s) with
  | Some (m, f1), Some (b, f2) => Some (mkSelectorValue m b, f1 ++ f2)
  | _, _ => None
  end.

Definition readSelector := readPtr asSelector readSelectorFields.

Definition readSecretSelectorFields (h : heap) (s : SecretSelector)
  : option (SecretSelectorValue * list loc) :=
  match readFlat asSecretReference h (SecretReferencePtr s) with
  | Some (r, f) => Some (mkSecretSelectorValue r (Key s), f)
  | None => None
  end.

Definition readSecretSelector := readPtr asSecretSelector readSecretSelectorFields.

Definition readTags (h : heap) (p : option Slice)
  : option (option (list Tag) * list loc) :=
  match p with
  | None => Some (None, [])
  | Some s =>
      match h !! array s with
      | Some (VTags a) =>
          match sliceElements a s with
          | Some elems => Some (Some elems, [array s])
          | None => None
          end
      | _ => None
      end
  end.

Definition readSecretParametersFields (h : heap) (s : SecretParameters)
  : option (SecretParametersValue * list loc) :=
  match readFlat asString h (Description s),
        readFlat asString h (KmsKeyID s),
        readFlat asReference h (KmsKeyRef s),
        readSelector h (KmsKeySelector s),
        readSecretSelector h (SecretRef s),
        readFlat asBool h (ForceDeleteWithoutRecovery s),
        readFlat asInt64 h (RecoveryWindowInDays s),
        readTags h (Tags s) with
  | Some (d, f1), Some (k, f2), Some (r, f3), Some (sel, f4),
    Some (sr, f5), Some (fd, f6), Some (w, f7), Some (t, f8) =>
      Some (mkSecretParametersValue (Region s) d k r sel sr fd w t,
            f1 ++ f2 ++ f3 ++ f4 ++ f5 ++ f6 ++ f7 ++ f8)
  | _, _, _, _, _, _, _, _ => None
  end.

Definition readSecretParameters :=
  readPtr asSecretParameters readSecretParametersFields.

(** The value a pointer denotes, and the storage it occupies. *)
Definition valueOf (h : heap) (p : option loc) : option (option SecretParametersValue) :=
  fst <$> readSecretParameters h p.

Definition storageOf (h : heap) (p : option loc) : list loc :=
  match readSecretParameters h p with
  | Some (_, ls) => ls
  | None => []
  end.

(** *** Specifications of reads and copies *)

(** A read depends on the heap only at the locations it reports. *)
Definition framed {P V} (rd : heap -> P -> option (V * list loc)) : Prop :=
  forall h h' p v ls,
    rd h p = Some (v, ls) ->
    (forall k, k ∈ ls -> h' !! k = h !! k) ->
    rd h' p = Some (v, ls).

(** The locations a read reports are allocated. *)
Definition bounded {P V} (rd : heap -> P -> option (V * list loc)) : Prop :=
  forall h p v ls, rd h p = Some (v, ls) -> forall k, k ∈ ls -> k < length h.

(** The computation [m] returns from [h], only extending the heap, with a
    result and final heap satisfying [Q]. *)
Definition yields {A} (m : M A) (h : heap) (Q : A -> heap -> Prop) : Prop :=
  exists a h', m h = Some (a, h') /\ h `prefix_of` h' /\ Q a h'.

(** [cp] copies what [rd] reads: the copy denotes the same value and
    occupies fresh locations only. *)
Definition copies {P V} (rd : heap -> P -> option (V * list loc))
    (cp : P -> M P) : Prop :=
  forall h p v ls,
    rd h p = Some (v, ls) ->
    yields (cp p) h (fun p' h' =>
      exists ls', rd h' p' = Some (v, ls') /\ forall k, k ∈ ls' -> length h <= k).

(** *** A populated heap *)

Definition exampleHeap : heap :=
  [ VString "database credentials";
    VString "alias/aws/secretsmanager";
    VReference (mkReference "key");
    VLabels {[ "team" := "storage" ]};
    VBool true;
    VSelector (mkSelector (Some 3) (Some 4));
    VSecretReference (mkSecretReference "db" "default");
    VSecretSelector (mkSecretSelector (Some 6) "password");
    VBool false;
    VInt64 7;
    VTags [mkTag "env" "prod"; mkTag "owner" "ops"; mkTag "spare" "x"];
    VSecretParameters
      (mkSecretParameters "us-east-1" (Some 0) (Some 1) (Some 2) (Some 5)
         (Some 7) (Some 8) (Some 9) (Some (mkSlice 10 0 2))) ].

Definition exampleSecret : option loc := Some 11.

Definition exampleValue : SecretParametersValue :=
  mkSecretParametersValue "us-east-1"
    (Some "database credentials") (Some "alias/aws/secretsmanager")
    (Some (mkReference "key"))
    (Some (mkSelectorValue (Some {[ "team" := "storage" ]}) (Some true)))
    (Some (mkSecretSelectorValue (Some (mkSecretReference "db" "default")) "password"))
    (Some false) (Some 7%Z)
    (Some [mkTag "env" "prod"; mkTag "owner" "ops"]).

(** *** The other copies of the package *)

(** [SecretSelector.DeepCopy]: nil for nil, otherwise [new] and
    [DeepCopyInto]. *)
Definition SecretSelector_DeepCopy (in_ : option loc) : M (option loc) :=
  match in_ with
  | None => ret None
  | Some l =>
      out <- new (VSecretSelector (mkSecretSelector None EmptyString)) ;;
      s <- load asSecretSelector l ;;
      s' <- SecretSelector_DeepCopyInto s ;;
      _ <- store out (VSecretSelector s') ;;
      ret (Some out)
  end.

(** A [*Tag] points at a tag on its own or at an element of the array under
    a [Tags] slice: either way at a cell of tags and an index into it. *)
Definition readTag (h : heap) (p : option (loc * nat))
  : option (option Tag * list loc) :=
  match p with
  | None => Some (None, [])
  | Some (l, i) =>
      match h !! l with
      | Some (VTags a) =>
          match a !! i with
          | Some t => Some (Some t, [l])
          | None => None
          end
      | _ => None
      end
  end.

Definition loadTag (p : loc * nat) : M Tag :=
  a <- load asTags p.1 ;;
  match a !! p.2 with
  | Some t => ret t
  | None => fun _ => None
  end.

Definition storeTag (p : loc * nat) (t : Tag) : M unit :=
  a <- load asTags p.1 ;;
  store p.1 (VTags (<[p.2:=t]> a)).

(** [Tag.DeepCopyInto]: the plain assignment of the struct. *)
Definition Tag_DeepCopyInto (in_ out : loc * nat) : M unit :=
  t <- loadTag in_ ;;
  storeTag out t.

(** [Tag.DeepCopy]: [new(Tag)] is a fresh cell of one tag. *)
Definition Tag_DeepCopy (in_ : option (loc * nat)) : M (option (loc * nat)) :=
  match in_ with
  | None => ret None
  | Some p =>
      out <- new (VTags [mkTag EmptyString EmptyString]) ;;
      _ <- Tag_DeepCopyInto p (out, 0) ;;
      ret (Some (out, 0))
  end.

(** [SecretObservation]: three [*metav1.Time].  A [metav1.Time] is kept as
    its instant, an integer; its [DeepCopyInto] is the plain assignment and
    its [DeepCopy] the usual [new] and [DeepCopyInto]. *)
Record SecretObservation : Type := mkSecretObservation {
  CreatedDate : option loc;
  DeletedDate : option loc;
  DeletionDate : option loc
}.

Record SecretObservationValue : Type := mkSecretObservationValue {
  CreatedDateValue : option Z;
  DeletedDateValue : option Z;
  DeletionDateValue : option Z
}.

Definition Time_DeepCopy := copyFlat asInt64 VInt64 0%Z.

Definition SecretObservation_DeepCopyInto (in_ : SecretObservation)
  : M SecretObservation :=
  created <- Time_DeepCopy (CreatedDate in_) ;;
  deleted <- Time_DeepCopy (DeletedDate in_) ;;
  deletion <- Time_DeepCopy (DeletionDate in_) ;;
  ret (mkSecretObservation created deleted deletion).

Definition readSecretObservationFields (h : heap) (s : SecretObservation)
  : option (SecretObservationValue * list loc) :=
  match readFlat asInt64 h (CreatedDate s),
        readFlat asInt64 h (DeletedDate s),
        readFlat asInt64 h (DeletionDate s) with
  | Some (c, f1), Some (d, f2), Some (n, f3) =>
      Some (mkSecretObservationValue c d n, f1 ++ f2 ++ f3)
  | _, _, _ => None
  end.

(** The computation [m] returns from [h] having appended exactly [n] cells,
    with a result and final heap satisfying [Q]. *)
Definition yieldsExactly {A} (m : M A) (h : heap) (n : nat)
    (Q : A -> heap -> Prop) : Prop :=
  exists a t, m h = Some (a, h ++ t) /\ length t = n /\ Q a (h ++ t).

(** [cp] allocates one cell for each location [rd] reads, and the copy
    occupies exactly these new cells, in the order of allocation. *)
Definition copiesExactly {P V} (rd : heap -> P -> option (V * list loc))
    (cp : P -> M P) : Prop :=
  forall h p v ls,
    rd h p = Some (v, ls) ->
    yieldsExactly (cp p) h (length ls) (fun p' h' =>
      rd h' p' = Some (v, seq (length h) (length ls))).

(** A heap with sharing inside one value: the description and the key
    identifier are the same string cell. *)
Definition sharingHeap : heap :=
  [ VString "shared";
    VSecretParameters
      (mkSecretParameters "eu-west-1" (Some 0) (Some 0) None None None None None None) ].

Definition sharingSecret : option loc := Some 1.

(** A slice over the middle of a longer array. *)
Definition windowHeap : heap :=
  [ VTags [mkTag "a" "1"; mkTag "b" "2"; mkTag "c" "3"; mkTag "d" "4"] ].

Definition window : Slice := mkSlice 0 1 2.

Definition observationHeap : heap := [ VInt64 1600000000; VInt64 1700000000 ].

Definition observation : SecretObservation :=
  mkSecretObservation (Some 0) None (Some 1).

End deepcopy.

(** ** Concrete collaborators

    Test doubles in the manner of the repository's tests: a provider that
    fails every call with a given error, one that lists given policies, and
    cluster stores that accept or refuse the write. *)

Module doubles.

Definition errBoom : error := New "boom".

Definition errNoSuchEntity : error :=
  AwsErr ErrCodeNoSuchEntityException EmptyString.

Definition policyARN : string := "arn:aws:iam::aws:policy/ReadOnlyAccess".
Definition otherARN : string := "arn:aws:iam::aws:policy/AdministratorAccess".

Definition attachment : IAMUserPolicyAttachment :=
  mkAttachment "example"
    (mkSpec (mkParameters policyARN "alice"))
    (mkStatus [] (mkObservation EmptyString)).

Definition failing (e : error) : UserPolicyAttachmentClient :=
  mkClient (fun _ => inr e) (fun _ => Some e) (fun _ => Some e).

Definition listing (policies : list AttachedPolicy) : UserPolicyAttachmentClient :=
  mkClient (fun _ => inl (mkListOutput policies)) (fun _ => None) (fun _ => None).

Definition acceptingStore : kubeClient := mkKube (fun _ => None).
Definition refusingStore : kubeClient := mkKube (fun _ => Some errBoom).

Definition attached (arn : string) : AttachedPolicy :=
  mkAttachedPolicy (Some arn) (Some "policy").

(** A late initialization that does change a found resource: it fills an
    unset user name from the policy's name. *)
Definition fillUserName (p : IAMUserPolicyAttachmentParameters)
    (policy : AttachedPolicy) : IAMUserPolicyAttachmentParameters :=
  mkParameters (PolicyARN p)
    (if bool_decide (UserName p = EmptyString)
     then aws.StringValue (PolicyName policy)
     else UserName p).

Definition unnamed : IAMUserPolicyAttachment :=
  mkAttachment "example"
    (mkSpec (mkParameters policyARN EmptyString))
    (mkStatus [] (mkObservation EmptyString)).

(** Adapters bound to these doubles. *)
Definition absent : external := mkExternal (failing errNoSuchEntity) acceptingStore.
Definition broken : external := mkExternal (failing errBoom) acceptingStore.
Definition unrelated : external :=
  mkExternal (listing [attached otherARN]) acceptingStore.
Definition present : external :=
  mkExternal (listing [attached otherARN; attached policyARN]) acceptingStore.
Definition unwritable : external :=
  mkExternal (listing [attached policyARN]) refusingStore.

(** An attachment the reconciler has already marked as synced, while it is
    being created. *)
Definition reconciled : IAMUserPolicyAttachment :=
  mkAttachment "example"
    (mkSpec (mkParameters policyARN "alice"))
    (mkStatus [xpv1.mkCondition "Synced" "True" 1 "ReconcileSuccess" EmptyString;
               xpv1.Creating 1]
              (mkObservation EmptyString)).

End doubles.


(** The conditions a managed object carries (none for the nil interface). *)
Definition conditionsOf (mgd : Managed) : list xpv1.Condition :=
  match mgd with
  | NilManaged => []
  | UserPolicyAttachment cr => Conditions (Status cr)
  | OtherKind _ cs => cs
  end.

(** At most one condition of each type. *)
Definition OnePerType (cs : list xpv1.Condition) : Prop :=
  NoDup (xpv1.CondType <$> cs).

(** The conditions of a type other than [t], in their order. *)
Definition otherThan (t : string) (cs : list xpv1.Condition) : list xpv1.Condition :=
  filter (fun c => xpv1.CondType c <> t) cs.

(** Whether some condition has type [t]. *)
Definition hasType (t : string) (cs : list xpv1.Condition) : bool :=
  bool_decide (t ∈ xpv1.CondType <$> cs).


(** * Properties of the adapter *)

Section ConditionFacts.

Import xpv1.

Lemma Equal_refl (c : Condition) : Equal c c = true.
Proof.
  unfold Equal. rewrite !bool_decide_eq_true_2 by reflexivity. reflexivity.
Qed.

(** The inner loop leaves only conditions [Equal] to the new one at its
    type; its flag tells whether the type was met at all. *)
Lemma replaceCondition_spec (new : Condition) (cs : list Condition) :
  let '(cs', found) := replaceCondition new cs in
  Forall (fun x => CondType x = CondType new -> Equal x new = true) cs'
  /\ (found = true -> Exists (fun x => Equal x new = true) cs')
  /\ (found = false -> cs' = cs).
Proof.
  induction cs as [|existing rest IH]; simpl.
  - repeat split; [constructor | discriminate].
  - destruct (replaceCondition new rest) as [rest' found].
    destruct IH as (Hall & Hex & Hsame).
    case_bool_decide as Hty.
    + repeat split; [| | discriminate].
      * constructor; [|exact Hall].
        intros _. destruct (Equal existing new) eqn:E; [exact E | apply Equal_refl].
      * intros _. apply Exists_cons_hd.
        destruct (Equal existing new) eqn:E; [exact E | apply Equal_refl].
    + repeat split.
      * constructor; [|exact Hall]. intros Heq. contradiction.
      * intros Hf. apply Exists_cons_tl. by apply Hex.
      * intros Hf. f_equal. by apply Hsame.
Qed.

Lemma SetConditions_sets (cs : list Condition) (c : Condition) :
  ConditionSet c (SetConditions cs [c]).
Proof.
  unfold ConditionSet, SetConditions, setCondition. simpl.
  pose proof (replaceCondition_spec c cs) as H.
  destruct (replaceCondition c cs) as [cs' found].
  destruct H as (Hall & Hex & Hsame).
  destruct found.
  - split; [by apply Hex | exact Hall].
  - rewrite <- (Hsame eq_refl). split.
    + apply Exists_app. right. apply Exists_cons_hd, Equal_refl.
    + apply Forall_app. split; [exact Hall|].
      constructor; [|constructor]. intros _. apply Equal_refl.
Qed.

End ConditionFacts.

Section AdapterFacts.

Variable IsErrorNotFound : error -> bool.
Variable now : Z.

(** The loop finds a policy exactly when one with the desired ARN is listed,
    and then it is the first such. *)
Lemma findAttachedPolicy_Some cr observed i policy :
  findAttachedPolicy cr observed = Some (i, policy) <->
  AttachedPolicies observed !! i = Some policy
  /\ PolicyARN (ForProvider (Spec cr)) = aws.StringValue (PolicyArn policy)
  /\ forall j other, AttachedPolicies observed !! j = Some other -> j < i ->
       PolicyARN (ForProvider (Spec cr)) <> aws.StringValue (PolicyArn other).
Proof. unfold findAttachedPolicy. by rewrite list_find_Some. Qed.

Lemma findAttachedPolicy_None cr observed :
  findAttachedPolicy cr observed = None <->
  Forall (fun policy =>
            PolicyARN (ForProvider (Spec cr)) <> aws.StringValue (PolicyArn policy))
         (AttachedPolicies observed).
Proof. unfold findAttachedPolicy. by rewrite list_find_None. Qed.

(** Observe on a found resource, for any late initialization: what is
    written, and what comes back when the write is accepted or not due. *)
Lemma Observe_found late e cr observed i policy :
  ListAttachedUserPoliciesRequest (client e) (listInput cr) = inl observed ->
  findAttachedPolicy cr observed = Some (i, policy) ->
  Observe IsErrorNotFound late now e (UserPolicyAttachment cr) =
  match lateInitialize late e cr policy with
  | (cr1, Some err, written) =>
      mkOutcome (mkExternalObservation false false [])
        (Some (Wrapped err errKubeUpdateFailed))
        (UserPolicyAttachment cr1) (listEvent cr :: written)
  | (cr1, None, written) =>
      mkOutcome (mkExternalObservation true true []) None
        (UserPolicyAttachment
           (setAtProvider (SetConditions cr1 [xpv1.Available now])
              (mkObservation (aws.StringValue (PolicyArn policy)))))
        (listEvent cr :: written)
  end.
Proof.
  intros Hlist Hfind. unfold Observe.
  rewrite Hlist, Hfind.
  destruct (lateInitialize late e cr policy) as [[cr1 [err|]] written];
    reflexivity.
Qed.

(** The modelled late initialization leaves a desired state alone whose ARN
    is already the observed one. *)
Lemma iam_LateInitializeUserPolicy_found p policy :
  PolicyARN p = aws.StringValue (PolicyArn policy) ->
  iam_LateInitializeUserPolicy p policy = p.
Proof.
  intros H. unfold iam_LateInitializeUserPolicy.
  destruct p as [arn user]; simpl in *.
  case_bool_decide; congruence.
Qed.

Lemma lateInitialize_iam e cr policy :
  PolicyARN (ForProvider (Spec cr)) = aws.StringValue (PolicyArn policy) ->
  lateInitialize iam_LateInitializeUserPolicy e cr policy = (cr, None, []).
Proof.
  intros H. unfold lateInitialize.
  rewrite (iam_LateInitializeUserPolicy_found _ _ H).
  destruct cr as [n [p] st]; simpl.
  rewrite bool_decide_eq_true_2 by reflexivity. reflexivity.
Qed.

(** C1 (as amended).  On an object that is not an IAMUserPolicyAttachment,
    Observe, Create and Delete return the unexpected-object error, issue no
    call and leave the object as it was; Update makes no type check: it
    returns the empty result and no error, and leaves the object as it was
    too. *)
Theorem wrong_kind_outcomes late e mgd :
  (forall cr, mgd <> UserPolicyAttachment cr) ->
  Observe IsErrorNotFound late now e mgd =
    mkOutcome (mkExternalObservation false false [])
      (Some (New errUnexpectedObject)) mgd []
  /\ Create now e mgd =
       mkOutcome (mkExternalCreation []) (Some (New errUnexpectedObject)) mgd []
  /\ Delete IsErrorNotFound now e mgd =
       mkOutcome tt (Some (New errUnexpectedObject)) mgd []
  /\ Update e mgd = mkOutcome (mkExternalUpdate []) None mgd [].
Proof.
  intros Hkind. destruct mgd as [|cr|kind cs]; try (repeat split; reflexivity).
  exfalso. exact (Hkind cr eq_refl).
Qed.

(** C2.  On a correctly typed object, when the list call fails with an
    error classified as not found, or succeeds with no policy of the
    desired ARN, Observe returns exists=false and no error, and the object
    (its conditions included) is as before; the list call is the one call
    issued. *)
Theorem Observe_absent late e cr :
  (exists err, ListAttachedUserPoliciesRequest (client e) (listInput cr) = inr err
               /\ IsErrorNotFound err = true)
  \/ (exists observed,
        ListAttachedUserPoliciesRequest (client e) (listInput cr) = inl observed
        /\ Forall (fun policy => PolicyARN (ForProvider (Spec cr))
                                 <> aws.StringValue (PolicyArn policy))
                  (AttachedPolicies observed)) ->
  Observe IsErrorNotFound late now e (UserPolicyAttachment cr) =
    mkOutcome (mkExternalObservation false false []) None
      (UserPolicyAttachment cr) [listEvent cr].
Proof.
  intros [(err & Hlist & Hnf) | (observed & Hlist & Hnone)];
    unfold Observe; rewrite Hlist.
  - simpl. rewrite Hnf. reflexivity.
  - apply findAttachedPolicy_None in Hnone. rewrite Hnone. reflexivity.
Qed.


(** C4.  On a correctly typed object, Create sets the Creating condition
    and then issues the attach call: the one call logged is the attach call
    and it saw the object with Creating set; whatever the provider answers,
    the object handed back has Creating set. *)
Theorem Create_sets_Creating e cr :
  let o := Create now e (UserPolicyAttachment cr) in
  let cr' := SetConditions cr [xpv1.Creating now] in
  let input := mkAttachInput (Some (PolicyARN (ForProvider (Spec cr))))
                             (Some (UserName (ForProvider (Spec cr)))) in
  object o = UserPolicyAttachment cr'
  /\ xpv1.ConditionSet (xpv1.Creating now) (Conditions (Status cr'))
  /\ calls o = [mkEvent (CallAttachUserPolicy input) cr']
  /\ Forall (fun ev => xpv1.ConditionSet (xpv1.Creating now)
                         (Conditions (Status (seen ev)))) (calls o)
  /\ err o = Wrap (AttachUserPolicyRequest (client e) input) errAttach.
Proof.
  simpl. split_and!; try reflexivity.
  - apply SetConditions_sets.
  - constructor; [|constructor]. simpl. apply SetConditions_sets.
Qed.

(** C5.  On a correctly typed object, Delete sets the Deleting condition
    and then issues the detach call, which saw the object with Deleting
    set; whatever the provider answers, the object handed back has Deleting
    set; and when the provider's error is classified as not found, Delete
    returns no error. *)
Theorem Delete_sets_Deleting e cr :
  let o := Delete IsErrorNotFound now e (UserPolicyAttachment cr) in
  let cr' := SetConditions cr [xpv1.Deleting now] in
  let input := mkDetachInput (Some (PolicyARN (ForProvider (Spec cr))))
                             (Some (UserName (ForProvider (Spec cr)))) in
  object o = UserPolicyAttachment cr'
  /\ xpv1.ConditionSet (xpv1.Deleting now) (Conditions (Status cr'))
  /\ calls o = [mkEvent (CallDetachUserPolicy input) cr']
  /\ Forall (fun ev => xpv1.ConditionSet (xpv1.Deleting now)
                         (Conditions (Status (seen ev)))) (calls o)
  /\ (forall cause, DetachUserPolicyRequest (client e) input = Some cause ->
        IsErrorNotFound cause = true -> err o = None).
Proof.
  simpl. split_and!; try reflexivity.
  - apply SetConditions_sets.
  - constructor; [|constructor]. simpl. apply SetConditions_sets.
  - intros cause Hdetach Hnf. unfold aws.String. rewrite Hdetach. simpl.
    rewrite Hnf. reflexivity.
Qed.

(** C6.  Update is a no-op that succeeds on every input: it returns the
    empty update result and no error, issues no call, and hands the object
    back as it was. *)
Theorem Update_noop e mgd :
  Update e mgd = mkOutcome (mkExternalUpdate []) None mgd []
  /\ calls (Update e mgd) = []
  /\ object (Update e mgd) = mgd.
Proof. repeat split. Qed.

(** C7.  On a correctly typed object with a policy of the desired ARN
    listed, Observe writes the object to the cluster store exactly when
    late initialization changed the desired state; what it writes is the
    late-initialized object; and when that write fails Observe returns the
    error wrapped with the cannot-late-initialize tag. *)
Theorem Observe_writes_back_iff_changed late e cr observed i policy :
  ListAttachedUserPoliciesRequest (client e) (listInput cr) = inl observed ->
  findAttachedPolicy cr observed = Some (i, policy) ->
  let o := Observe IsErrorNotFound late now e (UserPolicyAttachment cr) in
  let desired := late (ForProvider (Spec cr)) policy in
  let cr1 := setForProvider cr desired in
  ((exists ev obj, ev ∈ calls o /\ call ev = CallKubeUpdate obj)
   <-> desired <> ForProvider (Spec cr))
  /\ (desired <> ForProvider (Spec cr) ->
      calls o = [listEvent cr; mkEvent (CallKubeUpdate cr1) cr1])
  /\ (desired = ForProvider (Spec cr) -> calls o = [listEvent cr])
  /\ (forall cause, desired <> ForProvider (Spec cr) ->
        kubeUpdate (kube e) cr1 = Some cause ->
        err o = Some (Wrapped cause errKubeUpdateFailed)
        /\ result o = mkExternalObservation false false []).
Proof.
  intros Hlist Hfind o desired cr1. subst o.
  rewrite (Observe_found _ _ _ _ _ _ Hlist Hfind).
  unfold lateInitialize. simpl. fold desired. fold cr1.
  case_bool_decide as Hsame.
  - simpl. split_and!.
    + split.
      * intros (ev & obj & Hin & Hcall).
        apply list_elem_of_singleton in Hin. subst ev. discriminate.
      * intros Hne. congruence.
    + intros Hne. congruence.
    + reflexivity.
    + intros cause Hne. congruence.
  - assert (Hne : desired <> ForProvider (Spec cr)) by congruence.
    destruct (kubeUpdate (kube e) cr1) as [failure|] eqn:Hupd; simpl.
    + split_and!.
      * split; [intros _; exact Hne|]. intros _.
        exists (mkEvent (CallKubeUpdate cr1) cr1), cr1.
        split; [|reflexivity]. apply list_elem_of_further, list_elem_of_here.
      * reflexivity.
      * intros Heq. congruence.
      * intros cause _ Hc. inversion Hc; subst. split; reflexivity.
    + split_and!.
      * split; [intros _; exact Hne|]. intros _.
        exists (mkEvent (CallKubeUpdate cr1) cr1), cr1.
        split; [|reflexivity]. apply list_elem_of_further, list_elem_of_here.
      * reflexivity.
      * intros Heq. congruence.
      * intros cause _ Hc. discriminate.
Qed.

(** C8.  A provider error surfaced by Observe, Create or Delete is the
    provider's error wrapped with the tag of the failing operation (get,
    attach, detach), the cause kept underneath; the only provider errors
    that do not come back are those classified as not found, in Observe and
    in Delete. *)
Theorem provider_errors_wrapped late e cr :
  (forall cause,
     ListAttachedUserPoliciesRequest (client e) (listInput cr) = inr cause ->
     err (Observe IsErrorNotFound late now e (UserPolicyAttachment cr)) =
       if IsErrorNotFound cause then None else Some (Wrapped cause errGet))
  /\ (forall cause,
       AttachUserPolicyRequest (client e)
         (mkAttachInput (Some (PolicyARN (ForProvider (Spec cr))))
                        (Some (UserName (ForProvider (Spec cr))))) = Some cause ->
       err (Create now e (UserPolicyAttachment cr)) = Some (Wrapped cause errAttach))
  /\ (forall cause,
       DetachUserPolicyRequest (client e)
         (mkDetachInput (Some (PolicyARN (ForProvider (Spec cr))))
                        (Some (UserName (ForProvider (Spec cr))))) = Some cause ->
       err (Delete IsErrorNotFound now e (UserPolicyAttachment cr)) =
         if IsErrorNotFound cause then None else Some (Wrapped cause errDetach))
  /\ (forall cause tag, Cause (Wrapped cause tag) = Cause cause).
Proof.
  split_and!.
  - intros cause Hlist. unfold Observe. rewrite Hlist.
    simpl. destruct (IsErrorNotFound cause); reflexivity.
  - intros cause Hattach. simpl. unfold aws.String. rewrite Hattach. reflexivity.
  - intros cause Hdetach. simpl. unfold aws.String. rewrite Hdetach. simpl.
    destruct (IsErrorNotFound cause); reflexivity.
  - reflexivity.
Qed.

(** C9.  On a correctly typed object for which the list call succeeds,
    Observe reports exists=true exactly when some listed policy has the
    desired ARN, and then the ARN of the first such policy is what the
    status records as attached. *)
Theorem Observe_exists_iff_attached e cr observed :
  ListAttachedUserPoliciesRequest (client e) (listInput cr) = inl observed ->
  let o := Observe IsErrorNotFound iam_LateInitializeUserPolicy now e
             (UserPolicyAttachment cr) in
  (ResourceExists (result o) = true <->
   exists policy, policy ∈ AttachedPolicies observed
     /\ aws.StringValue (PolicyArn policy) = PolicyARN (ForProvider (Spec cr)))
  /\ (forall i policy,
        AttachedPolicies observed !! i = Some policy ->
        aws.StringValue (PolicyArn policy) = PolicyARN (ForProvider (Spec cr)) ->
        (forall j other, AttachedPolicies observed !! j = Some other -> j < i ->
           aws.StringValue (PolicyArn other) <> PolicyARN (ForProvider (Spec cr))) ->
        exists cr', object o = UserPolicyAttachment cr'
          /\ AttachedPolicyARN (AtProvider (Status cr')) =
               aws.StringValue (PolicyArn policy)).
Proof.
  intros Hlist o. subst o.
  destruct (findAttachedPolicy cr observed) as [[k found]|] eqn:Hfind.
  - rewrite (Observe_found _ _ _ _ _ _ Hlist Hfind).
    pose proof Hfind as Hfirst.
    apply findAttachedPolicy_Some in Hfind as (Hk & Harn & _).
    rewrite (lateInitialize_iam _ _ _ Harn). simpl. split.
    + split; [intros _|reflexivity].
      exists found. split; [|by symmetry].
      apply list_elem_of_lookup. by exists k.
    + intros i policy Hi Hmatch Hbefore.
      assert (Hsame : findAttachedPolicy cr observed = Some (i, policy)).
      { apply findAttachedPolicy_Some. split_and!; [done|done|].
        intros j other Hj Hlt Heq. by apply (Hbefore j other Hj Hlt). }
      rewrite Hfirst in Hsame. inversion Hsame; subst.
      eexists. split; reflexivity.
  - pose proof Hfind as Hnone. apply findAttachedPolicy_None in Hnone.
    unfold Observe. rewrite Hlist, Hfind. simpl. split.
    + split; [discriminate|].
      intros (policy & Hin & Hmatch). exfalso.
      rewrite Forall_forall in Hnone. by apply (Hnone policy Hin).
    + intros i policy Hi Hmatch _. exfalso.
      rewrite Forall_forall in Hnone.
      apply (Hnone policy); [|done].
      apply list_elem_of_lookup. by exists i.
Qed.

End AdapterFacts.

(** ** The statements at concrete collaborators *)

Import doubles.

(** The adapter run on the doubles. *)
Example Observe_present :
  Observe iam_IsErrorNotFound iam_LateInitializeUserPolicy 5 present
    (UserPolicyAttachment attachment)
  = mkOutcome (mkExternalObservation true true []) None
      (UserPolicyAttachment
         (mkAttachment "example" (mkSpec (mkParameters policyARN "alice"))
            (mkStatus [xpv1.Available 5] (mkObservation policyARN))))
      [listEvent attachment].
Proof. vm_compute. reflexivity. Qed.

Example Observe_broken :
  err (Observe iam_IsErrorNotFound iam_LateInitializeUserPolicy 5 broken
         (UserPolicyAttachment attachment))
  = Some (Wrapped (New "boom") "failed to get UserPolicyAttachments for user").
Proof. reflexivity. Qed.

Example Delete_absent :
  Delete iam_IsErrorNotFound 5 absent (UserPolicyAttachment attachment)
  = mkOutcome tt None
      (UserPolicyAttachment
         (mkAttachment "example" (mkSpec (mkParameters policyARN "alice"))
            (mkStatus [xpv1.Deleting 5] (mkObservation EmptyString))))
      [mkEvent (CallDetachUserPolicy (mkDetachInput (Some policyARN) (Some "alice")))
         (mkAttachment "example" (mkSpec (mkParameters policyARN "alice"))
            (mkStatus [xpv1.Deleting 5] (mkObservation EmptyString)))].
Proof. vm_compute. reflexivity. Qed.

(** An Available condition replaces a Creating one in place; setting it
    again keeps the first transition time. *)
Example SetConditions_replaces :
  xpv1.SetConditions [xpv1.Creating 1] [xpv1.Available 2] = [xpv1.Available 2]
  /\ xpv1.SetConditions [xpv1.Available 2] [xpv1.Available 3] = [xpv1.Available 2].
Proof. split; vm_compute; reflexivity. Qed.

Lemma policyARN_neq_otherARN : policyARN <> otherARN.
Proof. intros H. vm_compute in H. discriminate H. Defined.

Lemma wrong_kind_outcomes_witness :
  (forall cr, OtherKind "Secret" [] <> UserPolicyAttachment cr)
  /\ err (Delete iam_IsErrorNotFound 0 absent (OtherKind "Secret" []))
     = Some (New errUnexpectedObject).
Proof.
  split; [discriminate|].
  destruct (wrong_kind_outcomes iam_IsErrorNotFound 0
              iam_LateInitializeUserPolicy absent (OtherKind "Secret" []))
    as (_ & _ & H & _); [discriminate|].
  exact (f_equal err H).
Defined.

(** C1, as stated, fails at Update: on an object of another kind it returns
    no error, not the unexpected-object error. *)
Lemma Update_accepts_wrong_kind :
  (forall cr, OtherKind "Secret" [] <> UserPolicyAttachment cr)
  /\ err (Update absent (OtherKind "Secret" [])) = None
  /\ err (Update absent (OtherKind "Secret" [])) <> Some (New errUnexpectedObject).
Proof. split_and!; [discriminate | reflexivity | discriminate]. Qed.

Lemma Observe_absent_witness :
  Observe iam_IsErrorNotFound iam_LateInitializeUserPolicy 0 absent
    (UserPolicyAttachment attachment)
  = mkOutcome (mkExternalObservation false false []) None
      (UserPolicyAttachment attachment) [listEvent attachment]
  /\ Observe iam_IsErrorNotFound iam_LateInitializeUserPolicy 0 unrelated
       (UserPolicyAttachment attachment)
     = mkOutcome (mkExternalObservation false false []) None
         (UserPolicyAttachment attachment) [listEvent attachment].
Proof.
  split; apply Observe_absent.
  - left. exists errNoSuchEntity. split; reflexivity.
  - right. exists (mkListOutput [attached otherARN]). split; [reflexivity|].
    constructor; [exact policyARN_neq_otherARN | constructor].
Defined.


Lemma Delete_sets_Deleting_witness :
  DetachUserPolicyRequest (client absent)
    (mkDetachInput (Some policyARN) (Some "alice")) = Some errNoSuchEntity
  /\ iam_IsErrorNotFound errNoSuchEntity = true
  /\ err (Delete iam_IsErrorNotFound 0 absent (UserPolicyAttachment attachment))
     = None.
Proof.
  split; [reflexivity|]. split; [reflexivity|].
  destruct (Delete_sets_Deleting iam_IsErrorNotFound 0 absent attachment)
    as (_ & _ & _ & _ & H).
  exact (H errNoSuchEntity eq_refl eq_refl).
Defined.

Lemma Observe_writes_back_iff_changed_witness :
  findAttachedPolicy unnamed (mkListOutput [attached policyARN])
  = Some (0, attached policyARN)
  /\ fillUserName (ForProvider (Spec unnamed)) (attached policyARN)
     <> ForProvider (Spec unnamed)
  /\ err (Observe iam_IsErrorNotFound fillUserName 0 unwritable
            (UserPolicyAttachment unnamed))
     = Some (Wrapped errBoom errKubeUpdateFailed).
Proof.
  assert (Hfind : findAttachedPolicy unnamed (mkListOutput [attached policyARN])
                  = Some (0, attached policyARN)) by (vm_compute; reflexivity).
  assert (Hchanged : fillUserName (ForProvider (Spec unnamed)) (attached policyARN)
                     <> ForProvider (Spec unnamed))
    by (intros H; vm_compute in H; discriminate H).
  split; [exact Hfind|]. split; [exact Hchanged|].
  destruct (Observe_writes_back_iff_changed iam_IsErrorNotFound 0 fillUserName
              unwritable unnamed _ _ _ eq_refl Hfind) as (_ & _ & _ & H).
  exact (proj1 (H errBoom Hchanged eq_refl)).
Defined.

Lemma provider_errors_wrapped_witness :
  err (Observe iam_IsErrorNotFound iam_LateInitializeUserPolicy 0 broken
         (UserPolicyAttachment attachment)) = Some (Wrapped errBoom errGet)
  /\ err (Create 0 broken (UserPolicyAttachment attachment))
     = Some (Wrapped errBoom errAttach)
  /\ err (Delete iam_IsErrorNotFound 0 broken (UserPolicyAttachment attachment))
     = Some (Wrapped errBoom errDetach)
  /\ err (Observe iam_IsErrorNotFound iam_LateInitializeUserPolicy 0 absent
            (UserPolicyAttachment attachment)) = None.
Proof.
  destruct (provider_errors_wrapped iam_IsErrorNotFound 0
              iam_LateInitializeUserPolicy broken attachment)
    as (Hget & Hattach & Hdetach & _).
  destruct (provider_errors_wrapped iam_IsErrorNotFound 0
              iam_LateInitializeUserPolicy absent attachment)
    as (Hgone & _).
  split_and!.
  - exact (Hget errBoom eq_refl).
  - exact (Hattach errBoom eq_refl).
  - exact (Hdetach errBoom eq_refl).
  - exact (Hgone errNoSuchEntity eq_refl).
Defined.

Lemma Observe_exists_iff_attached_witness :
  ListAttachedUserPoliciesRequest (client present) (listInput attachment)
  = inl (mkListOutput [attached otherARN; attached policyARN])
  /\ exists cr',
       object (Observe iam_IsErrorNotFound iam_LateInitializeUserPolicy 0 present
                 (UserPolicyAttachment attachment)) = UserPolicyAttachment cr'
       /\ AttachedPolicyARN (AtProvider (Status cr')) = policyARN.
Proof.
  split; [reflexivity|].
  destruct (Observe_exists_iff_attached iam_IsErrorNotFound 0 present attachment
              _ eq_refl) as [_ H].
  apply (H 1 (attached policyARN)); [reflexivity | reflexivity |].
  intros j other Hj Hlt. destruct j as [|j]; [|lia].
  simpl in Hj. inversion Hj; subst other. simpl.
  intros Heq. exact (policyARN_neq_otherARN (eq_sym Heq)).
Defined.

(** * Further properties of the adapter *)

Section MoreConditionFacts.

Import xpv1.

Ltac case_type existing new Hty :=
  destruct (decide (CondType existing = CondType new)) as [Hty|Hty];
  [ rewrite (bool_decide_eq_true_2 _ Hty) | rewrite (bool_decide_eq_false_2 _ Hty) ].

Lemma Equal_sym (a b : Condition) : Equal a b = true -> Equal b a = true.
Proof.
  unfold Equal. rewrite !andb_true_iff, !bool_decide_eq_true.
  intros [[[-> ->] ->] ->]. done.
Qed.

Lemma Equal_trans (a b c : Condition) :
  Equal a b = true -> Equal b c = true -> Equal a c = true.
Proof.
  unfold Equal. rewrite !andb_true_iff, !bool_decide_eq_true.
  intros [[[-> ->] ->] ->] [[[-> ->] ->] ->]. done.
Qed.

Lemma Equal_type (a b : Condition) : Equal a b = true -> CondType a = CondType b.
Proof.
  unfold Equal. rewrite !andb_true_iff, !bool_decide_eq_true. tauto.
Qed.

(** The inner loop keeps the type at every position. *)
Lemma replaceCondition_types (new : Condition) (cs : list Condition) :
  CondType <$> (replaceCondition new cs).1 = CondType <$> cs.
Proof.
  induction cs as [|existing rest IH]; [reflexivity|].
  cbn [replaceCondition].
  destruct (replaceCondition new rest) as [rest' found]. cbn [fst] in IH.
  case_type existing new Hty; cbn [fst]; rewrite !fmap_cons, IH; [|reflexivity].
  destruct (Equal existing new); congruence.
Qed.

(** Its flag is raised exactly when the type occurs. *)
Lemma replaceCondition_found (new : Condition) (cs : list Condition) :
  (replaceCondition new cs).2 = hasType (CondType new) cs.
Proof.
  unfold hasType. induction cs as [|existing rest IH].
  - symmetry. apply bool_decide_eq_false. rewrite fmap_nil. apply not_elem_of_nil.
  - cbn [replaceCondition].
    destruct (replaceCondition new rest) as [rest' found]. cbn [snd] in IH.
    case_type existing new Hty; cbn [snd].
    + symmetry. apply bool_decide_eq_true. rewrite fmap_cons, Hty.
      apply list_elem_of_here.
    + rewrite IH. apply bool_decide_ext. rewrite fmap_cons, elem_of_cons.
      split; [by right|]. intros [Heq|Hin]; [congruence | exact Hin].
Qed.

(** It leaves the conditions of every other type where they are. *)
Lemma replaceCondition_otherThan (new : Condition) (cs : list Condition) :
  otherThan (CondType new) (replaceCondition new cs).1 = otherThan (CondType new) cs.
Proof.
  unfold otherThan. induction cs as [|existing rest IH]; [reflexivity|].
  cbn [replaceCondition].
  destruct (replaceCondition new rest) as [rest' found]. cbn [fst] in IH.
  case_type existing new Hty; cbn [fst].
  - rewrite !filter_cons. rewrite IH.
    destruct (decide (CondType existing <> CondType new)); [contradiction|].
    destruct (Equal existing new) eqn:E.
    + destruct (decide (CondType existing <> CondType new)); [contradiction|done].
    + destruct (decide (CondType new <> CondType new)); [contradiction|done].
  - rewrite !filter_cons, IH. reflexivity.
Qed.

Lemma setCondition_types (cs : list Condition) (new : Condition) :
  CondType <$> setCondition cs new =
  if hasType (CondType new) cs then CondType <$> cs
  else (CondType <$> cs) ++ [CondType new].
Proof.
  unfold setCondition.
  pose proof (replaceCondition_types new cs) as Hty.
  pose proof (replaceCondition_found new cs) as Hfound.
  destruct (replaceCondition new cs) as [cs' found]. simpl in *. subst found.
  destruct (hasType (CondType new) cs); [exact Hty|].
  by rewrite fmap_app.
Qed.

Lemma setCondition_OnePerType (cs : list Condition) (new : Condition) :
  OnePerType cs -> OnePerType (setCondition cs new).
Proof.
  unfold OnePerType. rewrite setCondition_types. intros Hnd.
  destruct (hasType (CondType new) cs) eqn:Hhas; [exact Hnd|].
  unfold hasType in Hhas. apply bool_decide_eq_false in Hhas.
  apply NoDup_app. split_and!; [exact Hnd | | apply NoDup_singleton].
  intros t Ht Ht'. apply list_elem_of_singleton in Ht'. by subst.
Qed.

Lemma setCondition_otherThan (cs : list Condition) (new : Condition) :
  otherThan (CondType new) (setCondition cs new) = otherThan (CondType new) cs.
Proof.
  unfold setCondition.
  pose proof (replaceCondition_otherThan new cs) as Hother.
  destruct (replaceCondition new cs) as [cs' found]. simpl in *.
  destruct found; [exact Hother|].
  unfold otherThan. rewrite filter_app, filter_cons.
  destruct (decide (CondType new <> CondType new)); [contradiction|].
  by rewrite filter_nil, app_nil_r.
Qed.

(** Setting a condition that is set changes nothing, not even the
    transition time. *)
Lemma replaceCondition_stable (new : Condition) (cs : list Condition) :
  Forall (fun x => CondType x = CondType new -> Equal x new = true) cs ->
  (replaceCondition new cs).1 = cs.
Proof.
  induction 1 as [|existing rest Hx Hall IH]; [reflexivity|].
  cbn [replaceCondition].
  destruct (replaceCondition new rest) as [rest' found]. cbn [fst] in IH. subst rest'.
  case_type existing new Hty; [|reflexivity].
  cbn [fst]. by rewrite (Hx Hty).
Qed.

Lemma setCondition_stable (cs : list Condition) (new : Condition) :
  ConditionSet new cs -> setCondition cs new = cs.
Proof.
  intros [Hex Hall]. unfold setCondition.
  pose proof (replaceCondition_stable new cs Hall) as Hsame.
  pose proof (replaceCondition_found new cs) as Hfound.
  destruct (replaceCondition new cs) as [cs' found]. simpl in *. subst.
  assert (Hhas : hasType (CondType new) cs = true); [|by rewrite Hhas].
  unfold hasType. apply bool_decide_eq_true.
  apply Exists_exists in Hex as (x & Hin & HE).
  apply list_elem_of_fmap. exists x. split; [|exact Hin].
  symmetry. by apply Equal_type.
Qed.

Lemma ConditionSet_Equal (c c' : Condition) (cs : list Condition) :
  Equal c c' = true -> ConditionSet c cs -> ConditionSet c' cs.
Proof.
  intros HE [Hex Hall]. pose proof (Equal_type _ _ HE) as Hty. split.
  - eapply Exists_impl; [exact Hex|]. intros x Hx. exact (Equal_trans _ _ _ Hx HE).
  - eapply Forall_impl; [exact Hall|]. intros x Hx Hxt.
    eapply Equal_trans; [|exact HE]. apply Hx. congruence.
Qed.

(** Setting one condition after an [Equal] one is the same as setting the
    first alone. *)
Lemma SetConditions_again (cs : list Condition) (c c' : Condition) :
  Equal c c' = true ->
  SetConditions (SetConditions cs [c]) [c'] = SetConditions cs [c].
Proof.
  intros HE. unfold SetConditions at 1. simpl.
  apply setCondition_stable. eapply ConditionSet_Equal; [exact HE|].
  apply SetConditions_sets.
Qed.

End MoreConditionFacts.

Section MoreAdapterFacts.

Variable IsErrorNotFound : error -> bool.
Variable late :
  IAMUserPolicyAttachmentParameters -> AttachedPolicy ->
  IAMUserPolicyAttachmentParameters.
Variable now : Z.

(** The two ways late initialization ends. *)
Lemma lateInitialize_cases e cr policy :
  let cr1 := setForProvider cr (late (ForProvider (Spec cr)) policy) in
  (late (ForProvider (Spec cr)) policy = ForProvider (Spec cr)
   /\ lateInitialize late e cr policy = (cr1, None, []))
  \/ (late (ForProvider (Spec cr)) policy <> ForProvider (Spec cr)
      /\ lateInitialize late e cr policy =
           (cr1, kubeUpdate (kube e) cr1, [mkEvent (CallKubeUpdate cr1) cr1])).
Proof.
  unfold lateInitialize. simpl. case_bool_decide as Hsame.
  - left. split; [congruence | reflexivity].
  - right. split; [congruence | reflexivity].
Qed.

(** Whatever Observe does, the conditions of the object it hands back are
    the old ones or the old ones with Available set. *)
Lemma Observe_conditions e mgd :
  let o := Observe IsErrorNotFound late now e mgd in
  conditionsOf (object o) = conditionsOf mgd
  \/ conditionsOf (object o) =
       xpv1.SetConditions (conditionsOf mgd) [xpv1.Available now].
Proof.
  destruct mgd as [|cr|kind cs]; simpl; try (left; reflexivity).
  destruct (ListAttachedUserPoliciesRequest (client e) (listInput cr))
    as [observed|cause]; [|left; reflexivity].
  destruct (findAttachedPolicy cr observed) as [[i policy]|]; [|left; reflexivity].
  destruct (lateInitialize_cases e cr policy) as [[_ ->]|[_ ->]].
  - right. reflexivity.
  - destruct (kubeUpdate _ _); [left|right]; reflexivity.
Qed.

(** X1.  Observe never reports a resource as existing but out of date, and
    never reports it as existing together with an error: for every adapter
    and every managed object, upToDate equals exists, and an error comes
    with exists=false. *)
Theorem Observe_never_out_of_date e mgd :
  let o := Observe IsErrorNotFound late now e mgd in
  ResourceUpToDate (result o) = ResourceExists (result o)
  /\ (err o = None \/ ResourceExists (result o) = false).
Proof.
  destruct mgd as [|cr|kind cs]; simpl; try (split; [reflexivity | by right]).
  destruct (ListAttachedUserPoliciesRequest (client e) (listInput cr))
    as [observed|cause]; [|split; [reflexivity | by right]].
  destruct (findAttachedPolicy cr observed) as [[i policy]|];
    [|split; [reflexivity | by right]].
  destruct (lateInitialize late e cr policy) as [[cr1 [failure|]] written];
    simpl; split; auto.
Qed.

(** X2.  Observe returns an error in exactly three situations: the object
    is of another kind; the list call fails with an error that is not
    classified as not found; or a policy of the desired ARN is listed, late
    initialization changed the desired state, and the write to the cluster
    store fails. *)
Theorem Observe_error_iff e mgd :
  err (Observe IsErrorNotFound late now e mgd) <> None <->
  (forall cr, mgd <> UserPolicyAttachment cr)
  \/ (exists cr cause,
        mgd = UserPolicyAttachment cr
        /\ ListAttachedUserPoliciesRequest (client e) (listInput cr) = inr cause
        /\ IsErrorNotFound cause = false)
  \/ (exists cr observed i policy cause,
        mgd = UserPolicyAttachment cr
        /\ ListAttachedUserPoliciesRequest (client e) (listInput cr) = inl observed
        /\ findAttachedPolicy cr observed = Some (i, policy)
        /\ late (ForProvider (Spec cr)) policy <> ForProvider (Spec cr)
        /\ kubeUpdate (kube e)
             (setForProvider cr (late (ForProvider (Spec cr)) policy)) = Some cause).
Proof.
  assert (Hno : forall cr,
    mgd = UserPolicyAttachment cr ->
    (forall cause,
       ListAttachedUserPoliciesRequest (client e) (listInput cr) = inr cause ->
       IsErrorNotFound cause = false -> False) ->
    (forall observed i policy cause,
       ListAttachedUserPoliciesRequest (client e) (listInput cr) = inl observed ->
       findAttachedPolicy cr observed = Some (i, policy) ->
       late (ForProvider (Spec cr)) policy <> ForProvider (Spec cr) ->
       kubeUpdate (kube e)
         (setForProvider cr (late (ForProvider (Spec cr)) policy)) = Some cause ->
       False) ->
    ~ ((forall cr, mgd <> UserPolicyAttachment cr)
       \/ (exists cr cause,
             mgd = UserPolicyAttachment cr
             /\ ListAttachedUserPoliciesRequest (client e) (listInput cr) = inr cause
             /\ IsErrorNotFound cause = false)
       \/ (exists cr observed i policy cause,
             mgd = UserPolicyAttachment cr
             /\ ListAttachedUserPoliciesRequest (client e) (listInput cr) = inl observed
             /\ findAttachedPolicy cr observed = Some (i, policy)
             /\ late (ForProvider (Spec cr)) policy <> ForProvider (Spec cr)
             /\ kubeUpdate (kube e)
                  (setForProvider cr (late (ForProvider (Spec cr)) policy))
                = Some cause))).
  { intros cr -> Hget Hwrite
      [Hkind|[(cr0 & cause & Heq & Hfail & Hnf)|
              (cr0 & obs & j & pol & cause & Heq & Hl & Hf & Hne & Hw)]].
    - exact (Hkind cr eq_refl).
    - injection Heq as <-. exact (Hget cause Hfail Hnf).
    - injection Heq as <-. exact (Hwrite obs j pol cause Hl Hf Hne Hw). }
  destruct mgd as [|cr|kind cs].
  - simpl. split; [intros _; left; discriminate | discriminate].
  - specialize (Hno cr eq_refl). simpl.
    destruct (ListAttachedUserPoliciesRequest (client e) (listInput cr))
      as [observed|cause] eqn:Hlist.
    + destruct (findAttachedPolicy cr observed) as [[i policy]|] eqn:Hfind.
      * destruct (lateInitialize_cases e cr policy) as [[Hsame ->]|[Hchanged ->]].
        -- simpl. split; [done|]. intros Hcase. exfalso. revert Hcase.
           apply Hno; [discriminate|]. intros obs j pol cause Hl Hf Hne Hw.
           congruence.
        -- destruct (kubeUpdate (kube e) _) as [failure|] eqn:Hupd; simpl.
           ++ split; [intros _|discriminate].
              right; right. exists cr, observed, i, policy, failure. done.
           ++ split; [done|]. intros Hcase. exfalso. revert Hcase.
              apply Hno; [discriminate|]. intros obs j pol cause Hl Hf Hne Hw.
              congruence.
      * simpl. split; [done|]. intros Hcase. exfalso. revert Hcase.
        apply Hno; [discriminate|]. intros obs j pol cause Hl Hf Hne Hw.
        congruence.
    + simpl. destruct (IsErrorNotFound cause) eqn:Hnf; simpl.
      * split; [done|]. intros Hcase. exfalso. revert Hcase.
        apply Hno; [|discriminate]. intros c Hl Hn. congruence.
      * split; [intros _|discriminate]. right; left. exists cr, cause. done.
  - simpl. split; [intros _; left; discriminate | discriminate].
Qed.

(** X3.  Unless a policy of the desired ARN is listed, Observe hands the
    object back exactly as it was, also when the list call fails with an
    error that is surfaced, and reports exists=false after at most the one
    list call. *)
Theorem Observe_changes_only_found e mgd :
  (forall cr observed i policy,
     mgd = UserPolicyAttachment cr ->
     ListAttachedUserPoliciesRequest (client e) (listInput cr) = inl observed ->
     findAttachedPolicy cr observed = Some (i, policy) -> False) ->
  let o := Observe IsErrorNotFound late now e mgd in
  object o = mgd
  /\ ResourceExists (result o) = false
  /\ length (calls o) <= 1.
Proof.
  intros Hnone.
  destruct mgd as [|cr|kind cs]; simpl;
    try (split_and!; [reflexivity | reflexivity | simpl; lia]).
  destruct (ListAttachedUserPoliciesRequest (client e) (listInput cr))
    as [observed|cause] eqn:Hlist;
    [|simpl; split_and!; [reflexivity | reflexivity | simpl; lia]].
  destruct (findAttachedPolicy cr observed) as [[i policy]|] eqn:Hfind;
    [|simpl; split_and!; [reflexivity | reflexivity | simpl; lia]].
  destruct (Hnone cr observed i policy eq_refl Hlist Hfind).
Qed.

(** X4.  Whenever Observe reports exists=true, the object is an attachment
    whose status now records, as attached, the very ARN its desired state
    asked for; its name is untouched and Available is set. *)
Theorem Observe_records_desired e mgd :
  ResourceExists (result (Observe IsErrorNotFound late now e mgd)) = true ->
  exists cr cr',
    mgd = UserPolicyAttachment cr
    /\ object (Observe IsErrorNotFound late now e mgd) = UserPolicyAttachment cr'
    /\ Name cr' = Name cr
    /\ AttachedPolicyARN (AtProvider (Status cr')) = PolicyARN (ForProvider (Spec cr))
    /\ xpv1.ConditionSet (xpv1.Available now) (Conditions (Status cr')).
Proof.
  destruct mgd as [|cr|kind cs]; simpl; try discriminate.
  destruct (ListAttachedUserPoliciesRequest (client e) (listInput cr))
    as [observed|cause] eqn:Hlist; [|discriminate].
  destruct (findAttachedPolicy cr observed) as [[i policy]|] eqn:Hfind;
    [|discriminate].
  apply list_find_Some in Hfind as (_ & Harn & _).
  destruct (lateInitialize_cases e cr policy) as [[_ ->]|[_ ->]].
  - intros _. eexists cr, _. split_and!; try reflexivity.
    + simpl. by rewrite Harn.
    + simpl. apply SetConditions_sets.
  - destruct (kubeUpdate (kube e) _); [discriminate|].
    intros _. eexists cr, _. split_and!; try reflexivity.
    + simpl. by rewrite Harn.
    + simpl. apply SetConditions_sets.
Qed.


(** X6.  Create and Delete change nothing of the object but its Ready
    condition: name, desired state, recorded provider state and the
    conditions of every other type are as before, whatever the provider
    answers. *)
Theorem Create_Delete_frame e cr :
  (exists cr', object (Create now e (UserPolicyAttachment cr)) = UserPolicyAttachment cr'
     /\ Name cr' = Name cr /\ Spec cr' = Spec cr
     /\ AtProvider (Status cr') = AtProvider (Status cr)
     /\ otherThan xpv1.TypeReady (Conditions (Status cr'))
        = otherThan xpv1.TypeReady (Conditions (Status cr)))
  /\ (exists cr', object (Delete IsErrorNotFound now e (UserPolicyAttachment cr))
                  = UserPolicyAttachment cr'
       /\ Name cr' = Name cr /\ Spec cr' = Spec cr
       /\ AtProvider (Status cr') = AtProvider (Status cr)
       /\ otherThan xpv1.TypeReady (Conditions (Status cr'))
          = otherThan xpv1.TypeReady (Conditions (Status cr))).
Proof.
  split; eexists; (split; [reflexivity|]); simpl; split_and!; try reflexivity.
  - apply (setCondition_otherThan _ (xpv1.Creating now)).
  - apply (setCondition_otherThan _ (xpv1.Deleting now)).
Qed.

(** X7.  Observe never touches the name of the object or a condition of a
    type other than Ready: on every managed object the conditions of the
    other types are handed back unchanged and in order (the Synced
    condition kept by the reconciler, say), and an object of another kind
    is handed back whole. *)
Theorem Observe_keeps_other_conditions e mgd :
  let o := Observe IsErrorNotFound late now e mgd in
  otherThan xpv1.TypeReady (conditionsOf (object o))
  = otherThan xpv1.TypeReady (conditionsOf mgd)
  /\ match mgd with
     | UserPolicyAttachment cr =>
         exists cr', object o = UserPolicyAttachment cr' /\ Name cr' = Name cr
     | _ => object o = mgd
     end.
Proof.
  split.
  - destruct (Observe_conditions e mgd) as [-> | ->]; [reflexivity|].
    apply (setCondition_otherThan _ (xpv1.Available now)).
  - destruct mgd as [|cr|kind cs]; try reflexivity. simpl.
    destruct (ListAttachedUserPoliciesRequest (client e) (listInput cr))
      as [observed|cause]; [|by eexists].
    destruct (findAttachedPolicy cr observed) as [[i policy]|]; [|by eexists].
    destruct (lateInitialize_cases e cr policy) as [[_ ->]|[_ ->]].
    + by eexists.
    + destruct (kubeUpdate (kube e) _); by eexists.
Qed.

(** X8.  Every lifecycle method keeps the invariant of the condition set:
    if the object carries at most one condition of each type before the
    call, it does so after it. *)
Theorem lifecycle_keeps_one_per_type e mgd :
  OnePerType (conditionsOf mgd) ->
  OnePerType (conditionsOf (object (Observe IsErrorNotFound late now e mgd)))
  /\ OnePerType (conditionsOf (object (Create now e mgd)))
  /\ OnePerType (conditionsOf (object (Delete IsErrorNotFound now e mgd)))
  /\ OnePerType (conditionsOf (object (Update e mgd))).
Proof.
  intros Hinv. split_and!.
  - destruct (Observe_conditions e mgd) as [-> | ->]; [exact Hinv|].
    by apply setCondition_OnePerType.
  - destruct mgd as [|cr|kind cs]; try exact Hinv.
    by apply setCondition_OnePerType.
  - destruct mgd as [|cr|kind cs]; try exact Hinv.
    by apply setCondition_OnePerType.
  - exact Hinv.
Qed.

(** X11.  Create returns an error exactly when the object is of another
    kind or the attach call fails; Delete exactly when the object is of
    another kind or the detach call fails with an error that is not
    classified as not found. *)
Theorem Create_Delete_error_iff e mgd :
  (err (Create now e mgd) <> None <->
   (forall cr, mgd <> UserPolicyAttachment cr)
   \/ (exists cr cause,
         mgd = UserPolicyAttachment cr
         /\ AttachUserPolicyRequest (client e)
              (mkAttachInput (Some (PolicyARN (ForProvider (Spec cr))))
                             (Some (UserName (ForProvider (Spec cr))))) = Some cause))
  /\ (err (Delete IsErrorNotFound now e mgd) <> None <->
      (forall cr, mgd <> UserPolicyAttachment cr)
      \/ (exists cr cause,
            mgd = UserPolicyAttachment cr
            /\ DetachUserPolicyRequest (client e)
                 (mkDetachInput (Some (PolicyARN (ForProvider (Spec cr))))
                                (Some (UserName (ForProvider (Spec cr))))) = Some cause
            /\ IsErrorNotFound cause = false)).
Proof.
  destruct mgd as [|cr|kind cs]; simpl;
    try (split; (split; [intros _; left; discriminate | discriminate])).
  unfold aws.String. split.
  - destruct (AttachUserPolicyRequest (client e) _) as [cause|] eqn:Hattach; simpl.
    + split; [intros _|discriminate]. right. by exists cr, cause.
    + split; [done|].
      intros [Hkind|(cr0 & cause & Heq & Hfail)].
      * by destruct (Hkind cr).
      * injection Heq as <-. congruence.
  - destruct (DetachUserPolicyRequest (client e) _) as [cause|] eqn:Hdetach; simpl.
    + destruct (IsErrorNotFound cause) eqn:Hnf; simpl.
      * split; [done|].
        intros [Hkind|(cr0 & c & Heq & Hfail & Hn)].
        -- by destruct (Hkind cr).
        -- injection Heq as <-. congruence.
      * split; [intros _|discriminate]. right. by exists cr, cause.
    + split; [done|].
      intros [Hkind|(cr0 & cause & Heq & Hfail & _)].
      * by destruct (Hkind cr).
      * injection Heq as <-. congruence.
Qed.

End MoreAdapterFacts.

(** X9.  Create and Delete can be retried without churning the object: a
    second Create (or Delete), at any later time and whatever either
    provider call answered, hands back the object exactly as the first left
    it, transition time included. *)
Theorem Create_Delete_retry isNotFound now now' e e' cr :
  object (Create now' e' (object (Create now e (UserPolicyAttachment cr))))
  = object (Create now e (UserPolicyAttachment cr))
  /\ object (Delete isNotFound now' e'
               (object (Delete isNotFound now e (UserPolicyAttachment cr))))
     = object (Delete isNotFound now e (UserPolicyAttachment cr)).
Proof.
  split; simpl; unfold SetConditions; simpl; do 3 f_equal.
  - apply (SetConditions_again _ (xpv1.Creating now) (xpv1.Creating now')).
    reflexivity.
  - apply (SetConditions_again _ (xpv1.Deleting now) (xpv1.Deleting now')).
    reflexivity.
Qed.


(** ** The further statements at concrete collaborators *)

Lemma Observe_error_iff_witness :
  err (Observe iam_IsErrorNotFound iam_LateInitializeUserPolicy 0 broken
         (UserPolicyAttachment attachment)) <> None.
Proof.
  apply Observe_error_iff. right; left. exists attachment, errBoom.
  split_and!; reflexivity.
Defined.

Lemma Observe_changes_only_found_witness :
  object (Observe iam_IsErrorNotFound iam_LateInitializeUserPolicy 0 broken
            (UserPolicyAttachment attachment))
  = UserPolicyAttachment attachment.
Proof.
  refine (proj1 (Observe_changes_only_found iam_IsErrorNotFound
                   iam_LateInitializeUserPolicy 0 broken
                   (UserPolicyAttachment attachment) _)).
  intros cr observed i policy _ Hlist. discriminate Hlist.
Defined.

Lemma Observe_records_desired_witness :
  exists cr',
    object (Observe iam_IsErrorNotFound iam_LateInitializeUserPolicy 0 present
              (UserPolicyAttachment reconciled)) = UserPolicyAttachment cr'
    /\ AttachedPolicyARN (AtProvider (Status cr')) = policyARN.
Proof.
  destruct (Observe_records_desired iam_IsErrorNotFound
              iam_LateInitializeUserPolicy 0 present
              (UserPolicyAttachment reconciled) eq_refl)
    as (cr & cr' & Hin & Hout & _ & Harn & _).
  injection Hin as <-. exists cr'. split; assumption.
Defined.

Lemma lifecycle_keeps_one_per_type_witness :
  OnePerType (conditionsOf (UserPolicyAttachment reconciled))
  /\ OnePerType
       (conditionsOf
          (object (Observe iam_IsErrorNotFound iam_LateInitializeUserPolicy 2
                     present (UserPolicyAttachment reconciled)))).
Proof.
  assert (Hinv : OnePerType (conditionsOf (UserPolicyAttachment reconciled))).
  { unfold OnePerType. apply (bool_decide_unpack _). vm_compute. exact I. }
  split; [exact Hinv|].
  exact (proj1 (lifecycle_keeps_one_per_type iam_IsErrorNotFound
                  iam_LateInitializeUserPolicy 2 present
                  (UserPolicyAttachment reconciled) Hinv)).
Defined.


Lemma Create_Delete_error_iff_witness :
  err (Create 0 broken (UserPolicyAttachment attachment)) <> None
  /\ err (Delete iam_IsErrorNotFound 0 broken (UserPolicyAttachment attachment))
     <> None.
Proof.
  destruct (Create_Delete_error_iff iam_IsErrorNotFound 0 broken
              (UserPolicyAttachment attachment)) as [Hcreate Hdelete].
  split.
  - apply Hcreate. right. exists attachment, errBoom. split; reflexivity.
  - apply Hdelete. right. exists attachment, errBoom. split_and!; reflexivity.
Defined.

(** The lifecycle on the synced attachment: the Ready condition goes from
    Creating to Available in place, Synced stays first. *)
Example Observe_after_Create :
  conditionsOf
    (object (Observe iam_IsErrorNotFound iam_LateInitializeUserPolicy 2 present
               (object (Create 1 present (UserPolicyAttachment reconciled)))))
  = [xpv1.mkCondition "Synced" "True" 1 "ReconcileSuccess" EmptyString;
     xpv1.Available 2].
Proof. vm_compute. reflexivity. Qed.

Import deepcopy.

(** * Properties of the deep copy *)

Section HeapFacts.

Implicit Types (h t : heap) (l k : loc) (c : cell).

Lemma new_cell_set h c0 c t : <[length h := c]> (h ++ c0 :: t) = h ++ c :: t.
Proof.
  rewrite insert_app_r_alt by lia. by rewrite Nat.sub_diag.
Qed.

Lemma lookup_extended h t l : l < length h -> (h ++ t) !! l = h !! l.
Proof. apply lookup_app_l. Qed.

(** ** The monad *)

Lemma yields_ret {A} (a : A) h (Q : A -> heap -> Prop) :
  Q a h -> yields (ret a) h Q.
Proof. intros HQ. exists a, h. split_and!; [reflexivity | reflexivity | exact HQ]. Qed.

Lemma yields_bind {A B} (m : M A) (f : A -> M B) h
    (Q : A -> heap -> Prop) (R : B -> heap -> Prop) :
  yields m h Q ->
  (forall a h1, h `prefix_of` h1 -> Q a h1 -> yields (f a) h1 R) ->
  yields (bind m f) h R.
Proof.
  intros (a & h1 & Hm & Hpre & HQ) Hf.
  destruct (Hf a h1 Hpre HQ) as (b & h2 & Hk & Hpre2 & HR).
  exists b, h2. unfold bind. rewrite Hm.
  split_and!; [exact Hk | by etrans | exact HR].
Qed.

(** ** Reads *)

Lemma framed_prefix {P V} (rd : heap -> P -> option (V * list loc)) h h' p r :
  framed rd -> bounded rd -> rd h p = Some r -> h `prefix_of` h' ->
  rd h' p = Some r.
Proof.
  intros Hfr Hbd Hrd Hpre. destruct r as [v ls].
  apply (Hfr h h' p v ls Hrd). intros k Hk.
  symmetry. apply prefix_lookup_lt; [|exact Hpre]. by apply (Hbd h p v ls).
Qed.

Lemma flat_framed {A} : framed (@flat A).
Proof. intros h h' p v ls H _. exact H. Qed.

Lemma flat_bounded {A} : bounded (@flat A).
Proof.
  intros h p v ls H k Hk. unfold flat in H. inversion H; subst.
  by apply elem_of_nil in Hk.
Qed.

Lemma readPtr_framed {A V} (as_ : cell -> option A)
    (fields : heap -> A -> option (V * list loc)) :
  framed fields -> framed (readPtr as_ fields).
Proof.
  intros Hf h h' [l|] v ls Hrd Hsame; [|exact Hrd].
  unfold readPtr in *.
  destruct (h !! l) as [c|] eqn:Hl; [|discriminate].
  destruct (as_ c) as [a|] eqn:Ha; [|discriminate].
  destruct (fields h a) as [[w fs]|] eqn:Hfs; [|discriminate].
  inversion Hrd; subst.
  rewrite (Hsame l) by apply list_elem_of_here. rewrite Hl, Ha.
  rewrite (Hf h h' a w fs Hfs); [reflexivity|].
  intros k Hk. apply Hsame. by apply list_elem_of_further.
Qed.

Lemma readPtr_bounded {A V} (as_ : cell -> option A)
    (fields : heap -> A -> option (V * list loc)) :
  bounded fields -> bounded (readPtr as_ fields).
Proof.
  intros Hb h [l|] v ls Hrd k Hk; unfold readPtr in Hrd.
  - destruct (h !! l) as [c|] eqn:Hl; [|discriminate].
    destruct (as_ c) as [a|] eqn:Ha; [|discriminate].
    destruct (fields h a) as [[w fs]|] eqn:Hfs; [|discriminate].
    inversion Hrd; subst.
    apply elem_of_cons in Hk as [->|Hk].
    + by eapply lookup_lt_Some.
    + by apply (Hb h a w fs).
  - inversion Hrd; subst. by apply elem_of_nil in Hk.
Qed.

Lemma copyWith_copies {A V} (as_ : cell -> option A) (inj : A -> cell) (zero : A)
    (fields : heap -> A -> option (V * list loc)) (DeepCopyInto : A -> M A) :
  (forall a, as_ (inj a) = Some a) ->
  framed fields -> bounded fields ->
  copies fields DeepCopyInto ->
  copies (readPtr as_ fields) (copyWith as_ inj zero DeepCopyInto).
Proof.
  intros Hinj Hfr Hbd Hcp h [l|] v ls Hrd.
  - unfold readPtr in Hrd.
    destruct (h !! l) as [c|] eqn:Hl; [|discriminate].
    destruct (as_ c) as [a|] eqn:Ha; [|discriminate].
    destruct (fields h a) as [[w fs]|] eqn:Hfs; [|discriminate].
    inversion Hrd; subst. clear Hrd.
    assert (Hlt : l < length h) by (by eapply lookup_lt_Some).
    assert (Hfs1 : fields (h ++ [inj zero]) a = Some (w, fs)).
    { eapply framed_prefix; eauto. by apply prefix_app_r. }
    destruct (Hcp _ _ _ _ Hfs1) as (a' & h2 & Hrun & [t Ht] & ls' & Hfs2 & Hfresh).
    exists (Some (length h)), (<[length h := inj a']> h2).
    assert (Hlen : length h < length h2).
    { rewrite Ht, !length_app. simpl. lia. }
    split_and!.
    + unfold copyWith, bind, new, load, store, ret.
      rewrite lookup_extended by exact Hlt. rewrite Hl, Ha, Hrun.
      destruct (decide (length h < length h2)); [reflexivity | contradiction].
    + exists (inj a' :: t). rewrite Ht, <- app_assoc. simpl. apply new_cell_set.
    + exists (length h :: ls'). split.
      * unfold readPtr. rewrite list_lookup_insert_eq by exact Hlen. rewrite Hinj.
        rewrite (Hfr h2 (<[length h := inj a']> h2) a' w ls' Hfs2); [reflexivity|].
        intros k Hk. apply list_lookup_insert_ne.
        apply Hfresh in Hk. rewrite length_app in Hk. simpl in Hk. lia.
      * intros k Hk. apply elem_of_cons in Hk as [->|Hk]; [lia|].
        apply Hfresh in Hk. rewrite length_app in Hk. lia.
  - inversion Hrd; subst. apply yields_ret. exists []. split; [reflexivity|].
    intros k Hk. by apply elem_of_nil in Hk.
Qed.

Lemma flat_copies {A} : copies (@flat A) ret.
Proof.
  intros h a v ls Hrd. apply yields_ret. unfold flat in *. inversion Hrd; subst.
  exists []. split; [reflexivity|]. intros k Hk. by apply elem_of_nil in Hk.
Qed.

Lemma copies_ext {P V} (rd : heap -> P -> option (V * list loc)) (cp cp' : P -> M P) :
  (forall p h, cp p h = cp' p h) -> copies rd cp -> copies rd cp'.
Proof.
  intros Heq Hcp h p v ls Hrd.
  destruct (Hcp h p v ls Hrd) as (a & h' & Hrun & Hrest).
  exists a, h'. rewrite <- Heq. by split.
Qed.

Lemma copyFlat_copies {A} (as_ : cell -> option A) (inj : A -> cell) (zero : A) :
  (forall a, as_ (inj a) = Some a) ->
  copies (readFlat as_) (copyFlat as_ inj zero).
Proof.
  intros Hinj.
  apply (copies_ext _ (copyWith as_ inj zero ret)).
  - intros [l|] h; reflexivity.
  - apply copyWith_copies; auto using flat_framed, flat_bounded, flat_copies.
Qed.

Lemma map_fold_insert_all (m : gmap string string) :
  map_fold (fun key val acc => <[key:=val]> acc) (empty : gmap string string) m = m.
Proof.
  apply (map_fold_weak_ind (fun r m => r = m)); [reflexivity|].
  intros i x m' r _ ->. reflexivity.
Qed.

Lemma copyLabels_copies : copies (readFlat asLabels) copyLabels.
Proof.
  apply (copies_ext _ (copyFlat asLabels VLabels empty)).
  - intros [l|] h; [|reflexivity].
    unfold copyLabels, copyFlat, bind, new, load.
    destruct ((h ++ [VLabels empty]) !! l) as [c|]; [|reflexivity].
    destruct (asLabels c) as [m|]; [|reflexivity].
    by rewrite map_fold_insert_all.
  - by apply copyFlat_copies.
Qed.

(** ** The types of the package *)

Ltac split_reads H :=
  repeat match type of H with
         | match ?rd with _ => _ end = Some _ =>
             let E := fresh "Hfield" in
             destruct rd as [[? ?]|] eqn:E; [|discriminate H]
         end;
  inversion H; subst; clear H.

Ltac in_parts := rewrite ?elem_of_app; tauto.

Lemma readFlat_framed {A} (as_ : cell -> option A) : framed (readFlat as_).
Proof. apply readPtr_framed, flat_framed. Qed.

Lemma readFlat_bounded {A} (as_ : cell -> option A) : bounded (readFlat as_).
Proof. apply readPtr_bounded, flat_bounded. Qed.

Lemma readSelectorFields_framed : framed readSelectorFields.
Proof.
  intros h h' s v ls Hrd Hsame. unfold readSelectorFields in *.
  split_reads Hrd.
  rewrite (readFlat_framed _ _ h' _ _ _ Hfield) by (intros; apply Hsame; in_parts).
  rewrite (readFlat_framed _ _ h' _ _ _ Hfield0) by (intros; apply Hsame; in_parts).
  reflexivity.
Qed.

Lemma readSelectorFields_bounded : bounded readSelectorFields.
Proof.
  intros h s v ls Hrd k Hk. unfold readSelectorFields in *.
  split_reads Hrd. rewrite !elem_of_app in Hk.
  destruct Hk as [Hk|Hk].
  - exact (readFlat_bounded _ _ _ _ _ Hfield k Hk).
  - exact (readFlat_bounded _ _ _ _ _ Hfield0 k Hk).
Qed.

Lemma readSecretSelectorFields_framed : framed readSecretSelectorFields.
Proof.
  intros h h' s v ls Hrd Hsame. unfold readSecretSelectorFields in *.
  split_reads Hrd.
  rewrite (readFlat_framed _ _ h' _ _ _ Hfield) by (intros; by apply Hsame).
  reflexivity.
Qed.

Lemma readSecretSelectorFields_bounded : bounded readSecretSelectorFields.
Proof.
  intros h s v ls Hrd k Hk. unfold readSecretSelectorFields in *.
  split_reads Hrd. exact (readFlat_bounded _ _ _ _ _ Hfield k Hk).
Qed.

Lemma readTags_framed : framed readTags.
Proof.
  intros h h' [s|] v ls Hrd Hsame; [|exact Hrd]. unfold readTags in *.
  destruct (h !! array s) as [c|] eqn:Hl; [|discriminate].
  destruct c; try discriminate.
  destruct (sliceElements a s) as [elems|] eqn:He; [|discriminate].
  inversion Hrd; subst.
  rewrite (Hsame (array s)) by apply list_elem_of_here.
  rewrite Hl, He. reflexivity.
Qed.

Lemma readTags_bounded : bounded readTags.
Proof.
  intros h [s|] v ls Hrd k Hk; unfold readTags in Hrd.
  - destruct (h !! array s) as [c|] eqn:Hl; [|discriminate].
    destruct c; try discriminate.
    destruct (sliceElements a s) as [elems|] eqn:He; [|discriminate].
    inversion Hrd; subst. apply list_elem_of_singleton in Hk as ->.
    by eapply lookup_lt_Some.
  - inversion Hrd; subst. by apply elem_of_nil in Hk.
Qed.

Lemma readSelector_framed : framed readSelector.
Proof. apply readPtr_framed, readSelectorFields_framed. Qed.
Lemma readSelector_bounded : bounded readSelector.
Proof. apply readPtr_bounded, readSelectorFields_bounded. Qed.
Lemma readSecretSelector_framed : framed readSecretSelector.
Proof. apply readPtr_framed, readSecretSelectorFields_framed. Qed.
Lemma readSecretSelector_bounded : bounded readSecretSelector.
Proof. apply readPtr_bounded, readSecretSelectorFields_bounded. Qed.

Lemma readSecretParametersFields_framed : framed readSecretParametersFields.
Proof.
  intros h h' s v ls Hrd Hsame. unfold readSecretParametersFields in *.
  split_reads Hrd.
  rewrite (readFlat_framed _ _ h' _ _ _ Hfield) by (intros; apply Hsame; in_parts).
  rewrite (readFlat_framed _ _ h' _ _ _ Hfield0) by (intros; apply Hsame; in_parts).
  rewrite (readFlat_framed _ _ h' _ _ _ Hfield1) by (intros; apply Hsame; in_parts).
  rewrite (readSelector_framed _ h' _ _ _ Hfield2) by (intros; apply Hsame; in_parts).
  rewrite (readSecretSelector_framed _ h' _ _ _ Hfield3) by (intros; apply Hsame; in_parts).
  rewrite (readFlat_framed _ _ h' _ _ _ Hfield4) by (intros; apply Hsame; in_parts).
  rewrite (readFlat_framed _ _ h' _ _ _ Hfield5) by (intros; apply Hsame; in_parts).
  rewrite (readTags_framed _ h' _ _ _ Hfield6) by (intros; apply Hsame; in_parts).
  reflexivity.
Qed.

Lemma readSecretParametersFields_bounded : bounded readSecretParametersFields.
Proof.
  intros h s v ls Hrd k Hk. unfold readSecretParametersFields in *.
  split_reads Hrd. rewrite !elem_of_app in Hk.
  destruct Hk as [Hk|[Hk|[Hk|[Hk|[Hk|[Hk|[Hk|Hk]]]]]]].
  - exact (readFlat_bounded _ _ _ _ _ Hfield k Hk).
  - exact (readFlat_bounded _ _ _ _ _ Hfield0 k Hk).
  - exact (readFlat_bounded _ _ _ _ _ Hfield1 k Hk).
  - exact (readSelector_bounded _ _ _ _ Hfield2 k Hk).
  - exact (readSecretSelector_bounded _ _ _ _ Hfield3 k Hk).
  - exact (readFlat_bounded _ _ _ _ _ Hfield4 k Hk).
  - exact (readFlat_bounded _ _ _ _ _ Hfield5 k Hk).
  - exact (readTags_bounded _ _ _ _ Hfield6 k Hk).
Qed.

(** A slice within its array has as many elements as its length. *)
Lemma sliceElements_length a s elems :
  sliceElements a s = Some elems -> length elems = len s.
Proof.
  unfold sliceElements. case_decide as Hin; [|discriminate].
  intros [= <-]. rewrite length_take, length_drop. lia.
Qed.

Lemma copyTags_copies : copies readTags copyTags.
Proof.
  intros h [s|] v ls Hrd.
  - unfold readTags in Hrd.
    destruct (h !! array s) as [c|] eqn:Hl; [|discriminate].
    destruct c; try discriminate.
    destruct (sliceElements a s) as [elems|] eqn:He; [|discriminate].
    inversion Hrd; subst. clear Hrd.
    pose proof (sliceElements_length _ _ _ He) as Hlen.
    assert (Hlt : array s < length h) by (by eapply lookup_lt_Some).
    exists (Some (mkSlice (length h) 0 (len s))), (h ++ [VTags elems]).
    split_and!.
    + unfold copyTags, make_Tags, copy_Tags, bind, new, load, store, ret. simpl.
      rewrite lookup_extended by exact Hlt. rewrite Hl. simpl. rewrite He.
      rewrite list_lookup_middle by reflexivity. simpl.
      rewrite length_app. simpl.
      destruct (decide (length h < length h + 1)); [|exfalso; lia].
      rewrite new_cell_set, Nat.min_id.
      rewrite drop_replicate, Nat.sub_diag. simpl.
      rewrite take_ge by lia. rewrite app_nil_r. reflexivity.
    + by apply prefix_app_r.
    + exists [length h]. split.
      * unfold readTags. simpl. rewrite list_lookup_middle by reflexivity.
        unfold sliceElements. simpl.
        destruct (decide (len s <= length elems)); [|exfalso; lia].
        rewrite drop_0, take_ge by lia. reflexivity.
      * intros k Hk. apply list_elem_of_singleton in Hk as ->. lia.
  - inversion Hrd; subst. apply yields_ret. exists []. split; [reflexivity|].
    intros k Hk. by apply elem_of_nil in Hk.
Qed.

Ltac chain := first [reflexivity | eassumption | (etrans; [eassumption|]; chain)].

Tactic Notation "copy_next" constr(Hcp) constr(Hfr) constr(Hbd) constr(Hfield)
    "as" ident(a) ident(h') ident(Hp) ident(g) ident(Hr) ident(Hf) :=
  eapply yields_bind;
  [ refine (Hcp _ _ _ _ (framed_prefix _ _ _ _ _ Hfr Hbd Hfield _)); chain
  | intros a h' Hp (g & Hr & Hf) ].

Ltac carried Hfr Hbd Hcopy :=
  rewrite (framed_prefix _ _ _ _ _ Hfr Hbd Hcopy) by chain.

Ltac fresh_from Hf Hk :=
  apply Hf in Hk;
  match type of Hk with
  | length ?hi <= _ =>
      match goal with
      | |- length ?h0 <= _ =>
          assert (length h0 <= length hi) by (apply prefix_length; chain); lia
      end
  end.

Lemma Selector_DeepCopyInto_copies : copies readSelectorFields Selector_DeepCopyInto.
Proof.
  intros h s v ls Hrd. unfold readSelectorFields in Hrd. split_reads Hrd.
  unfold Selector_DeepCopyInto.
  copy_next copyLabels_copies (readFlat_framed asLabels) (readFlat_bounded asLabels)
    Hfield as labels h1 Hp1 g1 Hr1 Hf1.
  copy_next (copyFlat_copies asBool VBool false (fun _ => eq_refl))
    (readFlat_framed asBool) (readFlat_bounded asBool)
    Hfield0 as ctrl h2 Hp2 g2 Hr2 Hf2.
  apply yields_ret. exists (g1 ++ g2). split.
  - unfold readSelectorFields. simpl.
    carried (readFlat_framed asLabels) (readFlat_bounded asLabels) Hr1.
    rewrite Hr2. reflexivity.
  - intros k Hk. rewrite !elem_of_app in Hk. destruct Hk as [Hk|Hk].
    + fresh_from Hf1 Hk.
    + fresh_from Hf2 Hk.
Qed.

Lemma SecretSelector_DeepCopyInto_copies :
  copies readSecretSelectorFields SecretSelector_DeepCopyInto.
Proof.
  intros h s v ls Hrd. unfold readSecretSelectorFields in Hrd. split_reads Hrd.
  unfold SecretSelector_DeepCopyInto.
  copy_next (copyFlat_copies asSecretReference VSecretReference
               (mkSecretReference EmptyString EmptyString) (fun _ => eq_refl))
    (readFlat_framed asSecretReference) (readFlat_bounded asSecretReference)
    Hfield as ref h1 Hp1 g1 Hr1 Hf1.
  apply yields_ret. exists g1. split.
  - unfold readSecretSelectorFields. simpl. rewrite Hr1. reflexivity.
  - intros k Hk. fresh_from Hf1 Hk.
Qed.

Lemma copySelector_copies : copies readSelector copySelector.
Proof.
  apply copyWith_copies;
    auto using readSelectorFields_framed, readSelectorFields_bounded,
      Selector_DeepCopyInto_copies.
Qed.

Lemma copySecretSelector_copies : copies readSecretSelector copySecretSelector.
Proof.
  apply copyWith_copies;
    auto using readSecretSelectorFields_framed, readSecretSelectorFields_bounded,
      SecretSelector_DeepCopyInto_copies.
Qed.

Lemma SecretParameters_DeepCopyInto_copies :
  copies readSecretParametersFields SecretParameters_DeepCopyInto.
Proof.
  intros h s v ls Hrd. unfold readSecretParametersFields in Hrd. split_reads Hrd.
  unfold SecretParameters_DeepCopyInto.
  copy_next (copyFlat_copies asString VString EmptyString (fun _ => eq_refl))
    (readFlat_framed asString) (readFlat_bounded asString)
    Hfield as description h1 Hp1 g1 Hr1 Hf1.
  copy_next (copyFlat_copies asString VString EmptyString (fun _ => eq_refl))
    (readFlat_framed asString) (readFlat_bounded asString)
    Hfield0 as kmsKeyID h2 Hp2 g2 Hr2 Hf2.
  copy_next (copyFlat_copies asReference VReference (mkReference EmptyString)
               (fun _ => eq_refl))
    (readFlat_framed asReference) (readFlat_bounded asReference)
    Hfield1 as kmsKeyRef h3 Hp3 g3 Hr3 Hf3.
  copy_next copySelector_copies readSelector_framed readSelector_bounded
    Hfield2 as kmsKeySelector h4 Hp4 g4 Hr4 Hf4.
  copy_next copySecretSelector_copies readSecretSelector_framed
    readSecretSelector_bounded
    Hfield3 as secretRef h5 Hp5 g5 Hr5 Hf5.
  copy_next (copyFlat_copies asBool VBool false (fun _ => eq_refl))
    (readFlat_framed asBool) (readFlat_bounded asBool)
    Hfield4 as force h6 Hp6 g6 Hr6 Hf6.
  copy_next (copyFlat_copies asInt64 VInt64 0%Z (fun _ => eq_refl))
    (readFlat_framed asInt64) (readFlat_bounded asInt64)
    Hfield5 as window h7 Hp7 g7 Hr7 Hf7.
  copy_next copyTags_copies readTags_framed readTags_bounded
    Hfield6 as tags h8 Hp8 g8 Hr8 Hf8.
  apply yields_ret. exists (g1 ++ g2 ++ g3 ++ g4 ++ g5 ++ g6 ++ g7 ++ g8). split.
  - unfold readSecretParametersFields. simpl.
    carried (readFlat_framed asString) (readFlat_bounded asString) Hr1.
    carried (readFlat_framed asString) (readFlat_bounded asString) Hr2.
    carried (readFlat_framed asReference) (readFlat_bounded asReference) Hr3.
    carried readSelector_framed readSelector_bounded Hr4.
    carried readSecretSelector_framed readSecretSelector_bounded Hr5.
    carried (readFlat_framed asBool) (readFlat_bounded asBool) Hr6.
    carried (readFlat_framed asInt64) (readFlat_bounded asInt64) Hr7.
    rewrite Hr8. reflexivity.
  - intros k Hk. rewrite !elem_of_app in Hk.
    destruct Hk as [Hk|[Hk|[Hk|[Hk|[Hk|[Hk|[Hk|Hk]]]]]]].
    + fresh_from Hf1 Hk.
    + fresh_from Hf2 Hk.
    + fresh_from Hf3 Hk.
    + fresh_from Hf4 Hk.
    + fresh_from Hf5 Hk.
    + fresh_from Hf6 Hk.
    + fresh_from Hf7 Hk.
    + fresh_from Hf8 Hk.
Qed.

Lemma SecretParameters_DeepCopy_copies :
  copies readSecretParameters SecretParameters_DeepCopy.
Proof.
  apply (copies_ext _ (copyWith asSecretParameters VSecretParameters
                         zeroSecretParameters SecretParameters_DeepCopyInto)).
  - intros [l|] h; reflexivity.
  - apply copyWith_copies;
      auto using readSecretParametersFields_framed,
        readSecretParametersFields_bounded, SecretParameters_DeepCopyInto_copies.
Qed.

Lemma readSecretParameters_framed : framed readSecretParameters.
Proof. apply readPtr_framed, readSecretParametersFields_framed. Qed.

Lemma readSecretParameters_bounded : bounded readSecretParameters.
Proof. apply readPtr_bounded, readSecretParametersFields_bounded. Qed.

End HeapFacts.

(** The copy of the populated heap: same value, storage past the end of
    the old heap. *)
Example exampleHeap_copy :
  exists h',
    SecretParameters_DeepCopy exampleSecret exampleHeap = Some (Some 12, h')
    /\ valueOf h' (Some 12) = Some (Some exampleValue)
    /\ storageOf h' (Some 12) = [12; 13; 14; 15; 16; 17; 18; 19; 20; 21; 22; 23]
    /\ storageOf h' exampleSecret = [11; 0; 1; 2; 5; 3; 4; 7; 6; 8; 9; 10].
Proof. eexists. split_and!; vm_compute; reflexivity. Qed.

(** C10.  [DeepCopy] of a nil pointer returns nil and touches nothing.  Of
    a pointer to well-formed parameters it returns a non-nil pointer that
    denotes the same value, while the original still denotes its own; the
    storage of the copy is disjoint from the storage of the original; and
    whatever is written to any location of the copy (a pointer target, the
    map, the array under the [Tags] slice, the struct itself), the original
    denotes the value it did. *)
Theorem SecretParameters_DeepCopy_deep (h : heap) (p : option loc)
    (v : option SecretParametersValue) :
  valueOf h p = Some v ->
  exists out h',
    SecretParameters_DeepCopy p h = Some (out, h')
    /\ (p = None -> out = None /\ h' = h)
    /\ (is_Some p -> is_Some out)
    /\ valueOf h' out = Some v
    /\ valueOf h' p = Some v
    /\ (forall k, k ∈ storageOf h' out -> k ∉ storageOf h' p)
    /\ (forall k c, k ∈ storageOf h' out ->
          valueOf (<[k:=c]> h') p = Some v).
Proof.
  unfold valueOf. intros Hv.
  apply fmap_Some in Hv as ([v0 ls] & Hrd & ->). simpl.
  destruct (SecretParameters_DeepCopy_copies h p v0 ls Hrd)
    as (out & h' & Hrun & Hpre & ls' & Hcopy & Hfresh).
  pose proof (framed_prefix _ _ _ _ _ readSecretParameters_framed
                readSecretParameters_bounded Hrd Hpre) as Hkept.
  pose proof (readSecretParameters_bounded h p v0 ls Hrd) as Hold.
  exists out, h'. unfold storageOf. rewrite Hcopy, Hkept. simpl.
  split_and!; try done.
  - intros ->. simpl in Hrun. by inversion Hrun.
  - intros [l ->]. destruct out as [l'|]; [by eexists|].
    simpl in Hrd, Hcopy. unfold readSecretParameters, readPtr in Hrd, Hcopy.
    inversion Hcopy; subst.
    destruct (h !! l) as [c|]; [|discriminate].
    destruct (asSecretParameters c) as [s|]; [|discriminate].
    destruct (readSecretParametersFields h s) as [[w fs]|]; discriminate.
  - intros k Hk Hk'. apply Hfresh in Hk. apply Hold in Hk'. lia.
  - intros k c Hk.
    rewrite (readSecretParameters_framed h' (<[k:=c]> h') p v0 ls Hkept);
      [reflexivity|].
    intros j Hj. apply list_lookup_insert_ne.
    apply Hfresh in Hk. apply Hold in Hj. lia.
Qed.

Lemma SecretParameters_DeepCopy_deep_witness :
  valueOf exampleHeap exampleSecret = Some (Some exampleValue)
  /\ exists out h',
       SecretParameters_DeepCopy exampleSecret exampleHeap = Some (out, h')
       /\ valueOf h' out = Some (Some exampleValue)
       /\ forall k c, k ∈ storageOf h' out ->
            valueOf (<[k:=c]> h') exampleSecret = Some (Some exampleValue).
Proof.
  assert (Hv : valueOf exampleHeap exampleSecret = Some (Some exampleValue))
    by (vm_compute; reflexivity).
  split; [exact Hv|].
  destruct (SecretParameters_DeepCopy_deep exampleHeap exampleSecret _ Hv)
    as (out & h' & Hrun & _ & _ & Hcopy & _ & _ & Hmut).
  exists out, h'. split_and!; assumption.
Defined.

(** * Further properties of the deep copies *)

Section MoreHeapFacts.

Implicit Types (h : heap) (l k : loc) (c : cell).

Ltac split_reads H :=
  repeat match type of H with
         | match ?rd with _ => _ end = Some _ =>
             let E := fresh "Hfield" in
             destruct rd as [[? ?]|] eqn:E; [|discriminate H]
         end;
  inversion H; subst; clear H.

Ltac in_parts := rewrite ?elem_of_app; tauto.

Ltac chain := first [reflexivity | eassumption | (etrans; [eassumption|]; chain)].

Tactic Notation "copy_next" constr(Hcp) constr(Hfr) constr(Hbd) constr(Hfield)
    "as" ident(a) ident(h') ident(Hp) ident(g) ident(Hr) ident(Hf) :=
  eapply yields_bind;
  [ refine (Hcp _ _ _ _ (framed_prefix _ _ _ _ _ Hfr Hbd Hfield _)); chain
  | intros a h' Hp (g & Hr & Hf) ].

Ltac carried Hfr Hbd Hcopy :=
  rewrite (framed_prefix _ _ _ _ _ Hfr Hbd Hcopy) by chain.

Ltac fresh_from Hf Hk :=
  apply Hf in Hk;
  match type of Hk with
  | length ?hi <= _ =>
      match goal with
      | |- length ?h0 <= _ =>
          assert (length h0 <= length hi) by (apply prefix_length; chain); lia
      end
  end.

(** What a copy in the sense of [copies] gives its user. *)
Lemma copies_deep {P V} (rd : heap -> P -> option (V * list loc)) (cp : P -> M P) :
  framed rd -> bounded rd -> copies rd cp ->
  forall h p v ls,
    rd h p = Some (v, ls) ->
    exists p' h' ls',
      cp p h = Some (p', h')
      /\ h `prefix_of` h'
      /\ rd h' p' = Some (v, ls')
      /\ rd h' p = Some (v, ls)
      /\ (forall k, k ∈ ls' -> k ∉ ls)
      /\ (forall k c, k ∈ ls' -> rd (<[k:=c]> h') p = Some (v, ls))
      /\ (forall k c, k ∈ ls -> rd (<[k:=c]> h') p' = Some (v, ls')).
Proof.
  intros Hfr Hbd Hcp h p v ls Hrd.
  destruct (Hcp h p v ls Hrd) as (p' & h' & Hrun & Hpre & ls' & Hcopy & Hfresh).
  pose proof (framed_prefix _ _ _ _ _ Hfr Hbd Hrd Hpre) as Hkept.
  pose proof (Hbd h p v ls Hrd) as Hold.
  exists p', h', ls'. split_and!; try done.
  - intros k Hk Hk'. apply Hfresh in Hk. apply Hold in Hk'. lia.
  - intros k c Hk. apply (Hfr h' _ p v ls Hkept).
    intros j Hj. apply list_lookup_insert_ne.
    apply Hfresh in Hk. apply Hold in Hj. lia.
  - intros k c Hk. apply (Hfr h' _ p' v ls' Hcopy).
    intros j Hj. apply list_lookup_insert_ne.
    apply Hfresh in Hj. apply Hold in Hk. lia.
Qed.

(** A read through a pointer tells nil from non-nil. *)
Lemma readPtr_is_Some {A V} (as_ : cell -> option A)
    (fields : heap -> A -> option (V * list loc)) h h' p p' v ls ls' :
  readPtr as_ fields h p = Some (v, ls) ->
  readPtr as_ fields h' p' = Some (v, ls') ->
  is_Some p -> is_Some p'.
Proof.
  intros Hrd Hrd' [l ->]. destruct p' as [l'|]; [by eexists|].
  simpl in Hrd'. inversion Hrd'; subst. unfold readPtr in Hrd.
  destruct (h !! l) as [c|]; [|discriminate].
  destruct (as_ c) as [a|]; [|discriminate].
  destruct (fields h a) as [[w fs]|]; discriminate.
Qed.

Lemma SecretSelector_DeepCopy_copies :
  copies readSecretSelector SecretSelector_DeepCopy.
Proof.
  apply (copies_ext _ copySecretSelector); [|apply copySecretSelector_copies].
  intros [l|] h; reflexivity.
Qed.

Lemma readTag_framed : framed readTag.
Proof.
  intros h h' [[l i]|] v ls Hrd Hsame; [|exact Hrd]. unfold readTag in *.
  destruct (h !! l) as [c|] eqn:Hl; [|discriminate].
  destruct c; try discriminate.
  destruct (a !! i) as [t|] eqn:Hi; [|discriminate].
  inversion Hrd; subst.
  rewrite (Hsame l) by apply list_elem_of_here. rewrite Hl, Hi. reflexivity.
Qed.

Lemma readTag_bounded : bounded readTag.
Proof.
  intros h [[l i]|] v ls Hrd k Hk; unfold readTag in Hrd.
  - destruct (h !! l) as [c|] eqn:Hl; [|discriminate].
    destruct c; try discriminate.
    destruct (a !! i) as [t|] eqn:Hi; [|discriminate].
    inversion Hrd; subst. apply list_elem_of_singleton in Hk as ->.
    by eapply lookup_lt_Some.
  - inversion Hrd; subst. by apply elem_of_nil in Hk.
Qed.

(** The copy of a tag is a cell of its own holding that one tag. *)
Lemma Tag_DeepCopy_runs h l i a t :
  h !! l = Some (VTags a) -> a !! i = Some t ->
  Tag_DeepCopy (Some (l, i)) h = Some (Some (length h, 0), h ++ [VTags [t]]).
Proof.
  intros Hl Hi.
  assert (Hlt : l < length h) by (by eapply lookup_lt_Some).
  unfold Tag_DeepCopy, Tag_DeepCopyInto, loadTag, storeTag, bind, new, load,
    store, ret. simpl.
  rewrite lookup_extended by exact Hlt. rewrite Hl. simpl. rewrite Hi.
  rewrite list_lookup_middle by reflexivity. simpl.
  rewrite length_app. simpl.
  destruct (decide (length h < length h + 1)); [|exfalso; lia].
  by rewrite new_cell_set.
Qed.

Lemma Tag_DeepCopy_copies : copies readTag Tag_DeepCopy.
Proof.
  intros h [[l i]|] v ls Hrd.
  - unfold readTag in Hrd.
    destruct (h !! l) as [c|] eqn:Hl; [|discriminate].
    destruct c; try discriminate.
    destruct (a !! i) as [t|] eqn:Hi; [|discriminate].
    inversion Hrd; subst. clear Hrd.
    exists (Some (length h, 0)), (h ++ [VTags [t]]). split_and!.
    + by eapply Tag_DeepCopy_runs.
    + by apply prefix_app_r.
    + exists [length h]. split.
      * unfold readTag. by rewrite list_lookup_middle by reflexivity.
      * intros k Hk. apply list_elem_of_singleton in Hk as ->. lia.
  - inversion Hrd; subst. apply yields_ret. exists []. split; [reflexivity|].
    intros k Hk. by apply elem_of_nil in Hk.
Qed.

Lemma readSecretObservationFields_framed : framed readSecretObservationFields.
Proof.
  intros h h' s v ls Hrd Hsame. unfold readSecretObservationFields in *.
  split_reads Hrd.
  rewrite (readFlat_framed _ _ h' _ _ _ Hfield) by (intros; apply Hsame; in_parts).
  rewrite (readFlat_framed _ _ h' _ _ _ Hfield0) by (intros; apply Hsame; in_parts).
  rewrite (readFlat_framed _ _ h' _ _ _ Hfield1) by (intros; apply Hsame; in_parts).
  reflexivity.
Qed.

Lemma readSecretObservationFields_bounded : bounded readSecretObservationFields.
Proof.
  intros h s v ls Hrd k Hk. unfold readSecretObservationFields in *.
  split_reads Hrd. rewrite !elem_of_app in Hk.
  destruct Hk as [Hk|[Hk|Hk]].
  - exact (readFlat_bounded _ _ _ _ _ Hfield k Hk).
  - exact (readFlat_bounded _ _ _ _ _ Hfield0 k Hk).
  - exact (readFlat_bounded _ _ _ _ _ Hfield1 k Hk).
Qed.

Lemma SecretObservation_DeepCopyInto_copies :
  copies readSecretObservationFields SecretObservation_DeepCopyInto.
Proof.
  intros h s v ls Hrd. unfold readSecretObservationFields in Hrd. split_reads Hrd.
  unfold SecretObservation_DeepCopyInto, Time_DeepCopy.
  copy_next (copyFlat_copies asInt64 VInt64 0%Z (fun _ => eq_refl))
    (readFlat_framed asInt64) (readFlat_bounded asInt64)
    Hfield as created h1 Hp1 g1 Hr1 Hf1.
  copy_next (copyFlat_copies asInt64 VInt64 0%Z (fun _ => eq_refl))
    (readFlat_framed asInt64) (readFlat_bounded asInt64)
    Hfield0 as deleted h2 Hp2 g2 Hr2 Hf2.
  copy_next (copyFlat_copies asInt64 VInt64 0%Z (fun _ => eq_refl))
    (readFlat_framed asInt64) (readFlat_bounded asInt64)
    Hfield1 as deletion h3 Hp3 g3 Hr3 Hf3.
  apply yields_ret. exists (g1 ++ g2 ++ g3). split.
  - unfold readSecretObservationFields. simpl.
    carried (readFlat_framed asInt64) (readFlat_bounded asInt64) Hr1.
    carried (readFlat_framed asInt64) (readFlat_bounded asInt64) Hr2.
    rewrite Hr3. reflexivity.
  - intros k Hk. rewrite !elem_of_app in Hk. destruct Hk as [Hk|[Hk|Hk]].
    + fresh_from Hf1 Hk.
    + fresh_from Hf2 Hk.
    + fresh_from Hf3 Hk.
Qed.

End MoreHeapFacts.

Section ExactCopies.

Implicit Types (h : heap) (l k : loc) (c : cell).

Ltac split_reads H :=
  repeat match type of H with
         | match ?rd with _ => _ end = Some _ =>
             let E := fresh "Hfield" in
             destruct rd as [[? ?]|] eqn:E; [|discriminate H]
         end;
  inversion H; subst; clear H.

Ltac chain := first [reflexivity | eassumption | (etrans; [eassumption|]; chain)].

Lemma yieldsExactly_ret {A} (a : A) h (Q : A -> heap -> Prop) :
  Q a h -> yieldsExactly (ret a) h 0 Q.
Proof.
  intros HQ. exists a, []. rewrite app_nil_r.
  split_and!; [reflexivity | reflexivity | exact HQ].
Qed.

Lemma yieldsExactly_bind {A B} (m : M A) (f : A -> M B) h n1 n2
    (Q : A -> heap -> Prop) (R : B -> heap -> Prop) :
  yieldsExactly m h n1 Q ->
  (forall a h1, h `prefix_of` h1 -> length h1 = length h + n1 -> Q a h1 ->
     yieldsExactly (f a) h1 n2 R) ->
  yieldsExactly (bind m f) h (n1 + n2) R.
Proof.
  intros (a & t1 & Hm & Hl1 & HQ) Hf.
  destruct (Hf a (h ++ t1)) as (b & t2 & Hk & Hl2 & HR);
    [by apply prefix_app_r | rewrite length_app; lia | exact HQ |].
  exists b, (t1 ++ t2). rewrite app_assoc. unfold bind. rewrite Hm.
  split_and!; [exact Hk | rewrite length_app; lia | exact HR].
Qed.

Lemma yieldsExactly_count {A} (m : M A) h n n' (Q : A -> heap -> Prop) :
  n = n' -> yieldsExactly m h n Q -> yieldsExactly m h n' Q.
Proof. by intros ->. Qed.

Lemma copiesExactly_ext {P V} (rd : heap -> P -> option (V * list loc))
    (cp cp' : P -> M P) :
  (forall p h, cp p h = cp' p h) -> copiesExactly rd cp -> copiesExactly rd cp'.
Proof.
  intros Heq Hcp h p v ls Hrd.
  destruct (Hcp h p v ls Hrd) as (a & t & Hrun & Hrest).
  exists a, t. rewrite <- Heq. by split.
Qed.

Lemma flat_exact {A} : copiesExactly (@flat A) ret.
Proof.
  intros h a v ls Hrd. unfold flat in *. inversion Hrd; subst.
  by apply yieldsExactly_ret.
Qed.

Lemma copyWith_exact {A V} (as_ : cell -> option A) (inj : A -> cell) (zero : A)
    (fields : heap -> A -> option (V * list loc)) (DeepCopyInto : A -> M A) :
  (forall a, as_ (inj a) = Some a) ->
  framed fields -> bounded fields ->
  copiesExactly fields DeepCopyInto ->
  copiesExactly (readPtr as_ fields) (copyWith as_ inj zero DeepCopyInto).
Proof.
  intros Hinj Hfr Hbd Hcp h [l|] v ls Hrd.
  - unfold readPtr in Hrd.
    destruct (h !! l) as [c|] eqn:Hl; [|discriminate].
    destruct (as_ c) as [a|] eqn:Ha; [|discriminate].
    destruct (fields h a) as [[w fs]|] eqn:Hfs; [|discriminate].
    inversion Hrd; subst. clear Hrd.
    assert (Hlt : l < length h) by (by eapply lookup_lt_Some).
    assert (Hfs1 : fields (h ++ [inj zero]) a = Some (w, fs)).
    { eapply framed_prefix; eauto. by apply prefix_app_r. }
    destruct (Hcp _ _ _ _ Hfs1) as (a' & t & Hrun & Hlen & Hfs2).
    assert (Hset : <[length h := inj a']> ((h ++ [inj zero]) ++ t)
                   = h ++ inj a' :: t).
    { rewrite <- app_assoc. simpl. apply new_cell_set. }
    exists (Some (length h)), (inj a' :: t). split_and!.
    + unfold copyWith, bind, new, load, store, ret.
      rewrite lookup_extended by exact Hlt. rewrite Hl, Ha, Hrun.
      destruct (decide (length h < length ((h ++ [inj zero]) ++ t)));
        [by rewrite Hset|].
      exfalso. rewrite !length_app in *. simpl in *. lia.
    + simpl. by rewrite Hlen.
    + unfold readPtr. rewrite list_lookup_middle by reflexivity. rewrite Hinj.
      rewrite <- Hset.
      rewrite (Hfr _ (<[length h := inj a']> ((h ++ [inj zero]) ++ t))
                 a' w _ Hfs2).
      * rewrite length_app. simpl. by rewrite Nat.add_1_r.
      * intros k Hk. apply list_lookup_insert_ne.
        apply elem_of_seq in Hk. rewrite length_app in Hk. simpl in Hk. lia.
  - inversion Hrd; subst. by apply yieldsExactly_ret.
Qed.

Lemma copyFlat_exact {A} (as_ : cell -> option A) (inj : A -> cell) (zero : A) :
  (forall a, as_ (inj a) = Some a) ->
  copiesExactly (readFlat as_) (copyFlat as_ inj zero).
Proof.
  intros Hinj.
  apply (copiesExactly_ext _ (copyWith as_ inj zero ret)).
  - intros [l|] h; reflexivity.
  - apply copyWith_exact; auto using flat_framed, flat_bounded, flat_exact.
Qed.

Lemma copyLabels_exact : copiesExactly (readFlat asLabels) copyLabels.
Proof.
  apply (copiesExactly_ext _ (copyFlat asLabels VLabels empty)).
  - intros [l|] h; [|reflexivity].
    unfold copyLabels, copyFlat, bind, new, load.
    destruct ((h ++ [VLabels empty]) !! l) as [c|]; [|reflexivity].
    destruct (asLabels c) as [m|]; [|reflexivity].
    by rewrite map_fold_insert_all.
  - by apply copyFlat_exact.
Qed.

(** The copy of a slice: a fresh array holding exactly the elements of the
    slice, and a slice over the whole of it. *)
Lemma copyTags_runs h s a :
  h !! array s = Some (VTags a) ->
  offset s + len s <= length a ->
  copyTags (Some s) h =
    Some (Some (mkSlice (length h) 0 (len s)),
          h ++ [VTags (take (len s) (drop (offset s) a))]).
Proof.
  intros Hl Hin.
  assert (Hlt : array s < length h) by (by eapply lookup_lt_Some).
  assert (He : sliceElements a s = Some (take (len s) (drop (offset s) a))).
  { unfold sliceElements. destruct (decide _); [reflexivity | contradiction]. }
  pose proof (sliceElements_length _ _ _ He) as Hlen.
  unfold copyTags, make_Tags, copy_Tags, bind, new, load, store, ret. simpl.
  rewrite lookup_extended by exact Hlt. rewrite Hl. simpl. rewrite He.
  rewrite list_lookup_middle by reflexivity. simpl.
  rewrite length_app. simpl.
  destruct (decide (length h < length h + 1)); [|exfalso; lia].
  rewrite new_cell_set, Nat.min_id.
  rewrite drop_replicate, Nat.sub_diag. simpl.
  rewrite (take_ge (take _ _)) by lia. rewrite app_nil_r. reflexivity.
Qed.

Lemma copyTags_exact : copiesExactly readTags copyTags.
Proof.
  intros h [s|] v ls Hrd.
  - unfold readTags in Hrd.
    destruct (h !! array s) as [c|] eqn:Hl; [|discriminate].
    destruct c; try discriminate.
    destruct (sliceElements a s) as [elems|] eqn:He; [|discriminate].
    inversion Hrd; subst. clear Hrd.
    pose proof (sliceElements_length _ _ _ He) as Hlen.
    unfold sliceElements in He. case_decide as Hin; [|discriminate].
    injection He as <-.
    eexists _, _. split_and!.
    + by apply copyTags_runs.
    + reflexivity.
    + unfold readTags. simpl. rewrite list_lookup_middle by reflexivity.
      unfold sliceElements. simpl.
      destruct (decide (len s <= length (take (len s) (drop (offset s) a))));
        [|exfalso; lia].
      rewrite drop_0, (take_ge (take _ _)) by lia. reflexivity.
  - inversion Hrd; subst. by apply yieldsExactly_ret.
Qed.

Tactic Notation "exact_next" constr(Hcp) constr(Hfr) constr(Hbd) constr(Hfield)
    "as" ident(a) ident(h') ident(Hp) ident(Hl) ident(Hr) :=
  eapply yieldsExactly_bind;
  [ refine (Hcp _ _ _ _ (framed_prefix _ _ _ _ _ Hfr Hbd Hfield _)); chain
  | intros a h' Hp Hl Hr ].

Ltac carried Hfr Hbd Hcopy :=
  rewrite (framed_prefix _ _ _ _ _ Hfr Hbd Hcopy) by chain.

Lemma Selector_DeepCopyInto_exact :
  copiesExactly readSelectorFields Selector_DeepCopyInto.
Proof.
  intros h s v ls Hrd. unfold readSelectorFields in Hrd. split_reads Hrd.
  unfold Selector_DeepCopyInto.
  match goal with
  | |- yieldsExactly _ _ (length (?f1 ++ ?f2)) _ =>
      apply (yieldsExactly_count _ _ (length f1 + (length f2 + 0)));
        [rewrite !length_app; lia|]
  end.
  exact_next copyLabels_exact (readFlat_framed asLabels) (readFlat_bounded asLabels)
    Hfield as labels h1 Hp1 Hl1 Hr1.
  exact_next (copyFlat_exact asBool VBool false (fun _ => eq_refl))
    (readFlat_framed asBool) (readFlat_bounded asBool)
    Hfield0 as ctrl h2 Hp2 Hl2 Hr2.
  apply yieldsExactly_ret.
  unfold readSelectorFields. simpl.
  carried (readFlat_framed asLabels) (readFlat_bounded asLabels) Hr1.
  rewrite Hr2. rewrite Hl1. by rewrite !length_app, !seq_app.
Qed.

Lemma SecretSelector_DeepCopyInto_exact :
  copiesExactly readSecretSelectorFields SecretSelector_DeepCopyInto.
Proof.
  intros h s v ls Hrd. unfold readSecretSelectorFields in Hrd. split_reads Hrd.
  unfold SecretSelector_DeepCopyInto.
  match goal with
  | |- yieldsExactly _ _ (length ?f1) _ =>
      apply (yieldsExactly_count _ _ (length f1 + 0)); [lia|]
  end.
  exact_next (copyFlat_exact asSecretReference VSecretReference
                (mkSecretReference EmptyString EmptyString) (fun _ => eq_refl))
    (readFlat_framed asSecretReference) (readFlat_bounded asSecretReference)
    Hfield as ref h1 Hp1 Hl1 Hr1.
  apply yieldsExactly_ret.
  unfold readSecretSelectorFields. simpl. by rewrite Hr1.
Qed.

Lemma copySelector_exact : copiesExactly readSelector copySelector.
Proof.
  apply copyWith_exact;
    auto using readSelectorFields_framed, readSelectorFields_bounded,
      Selector_DeepCopyInto_exact.
Qed.

Lemma copySecretSelector_exact : copiesExactly readSecretSelector copySecretSelector.
Proof.
  apply copyWith_exact;
    auto using readSecretSelectorFields_framed, readSecretSelectorFields_bounded,
      SecretSelector_DeepCopyInto_exact.
Qed.

Lemma SecretParameters_DeepCopyInto_exact :
  copiesExactly readSecretParametersFields SecretParameters_DeepCopyInto.
Proof.
  intros h s v ls Hrd. unfold readSecretParametersFields in Hrd. split_reads Hrd.
  unfold SecretParameters_DeepCopyInto.
  match goal with
  | |- yieldsExactly _ _
         (length (?f1 ++ ?f2 ++ ?f3 ++ ?f4 ++ ?f5 ++ ?f6 ++ ?f7 ++ ?f8)) _ =>
      apply (yieldsExactly_count _ _
               (length f1 + (length f2 + (length f3 + (length f4 + (length f5
                + (length f6 + (length f7 + (length f8 + 0)))))))));
        [rewrite !length_app; lia|]
  end.
  exact_next (copyFlat_exact asString VString EmptyString (fun _ => eq_refl))
    (readFlat_framed asString) (readFlat_bounded asString)
    Hfield as description h1 Hp1 Hl1 Hr1.
  exact_next (copyFlat_exact asString VString EmptyString (fun _ => eq_refl))
    (readFlat_framed asString) (readFlat_bounded asString)
    Hfield0 as kmsKeyID h2 Hp2 Hl2 Hr2.
  exact_next (copyFlat_exact asReference VReference (mkReference EmptyString)
                (fun _ => eq_refl))
    (readFlat_framed asReference) (readFlat_bounded asReference)
    Hfield1 as kmsKeyRef h3 Hp3 Hl3 Hr3.
  exact_next copySelector_exact readSelector_framed readSelector_bounded
    Hfield2 as kmsKeySelector h4 Hp4 Hl4 Hr4.
  exact_next copySecretSelector_exact readSecretSelector_framed
    readSecretSelector_bounded
    Hfield3 as secretRef h5 Hp5 Hl5 Hr5.
  exact_next (copyFlat_exact asBool VBool false (fun _ => eq_refl))
    (readFlat_framed asBool) (readFlat_bounded asBool)
    Hfield4 as force h6 Hp6 Hl6 Hr6.
  exact_next (copyFlat_exact asInt64 VInt64 0%Z (fun _ => eq_refl))
    (readFlat_framed asInt64) (readFlat_bounded asInt64)
    Hfield5 as window h7 Hp7 Hl7 Hr7.
  exact_next copyTags_exact readTags_framed readTags_bounded
    Hfield6 as tags h8 Hp8 Hl8 Hr8.
  apply yieldsExactly_ret.
  unfold readSecretParametersFields. simpl.
  carried (readFlat_framed asString) (readFlat_bounded asString) Hr1.
  carried (readFlat_framed asString) (readFlat_bounded asString) Hr2.
  carried (readFlat_framed asReference) (readFlat_bounded asReference) Hr3.
  carried readSelector_framed readSelector_bounded Hr4.
  carried readSecretSelector_framed readSecretSelector_bounded Hr5.
  carried (readFlat_framed asBool) (readFlat_bounded asBool) Hr6.
  carried (readFlat_framed asInt64) (readFlat_bounded asInt64) Hr7.
  rewrite Hr8. rewrite Hl7, Hl6, Hl5, Hl4, Hl3, Hl2, Hl1.
  by rewrite !length_app, !seq_app.
Qed.

Lemma SecretParameters_DeepCopy_exact :
  copiesExactly readSecretParameters SecretParameters_DeepCopy.
Proof.
  apply (copiesExactly_ext _ (copyWith asSecretParameters VSecretParameters
                                zeroSecretParameters SecretParameters_DeepCopyInto)).
  - intros [l|] h; reflexivity.
  - apply copyWith_exact;
      auto using readSecretParametersFields_framed,
        readSecretParametersFields_bounded, SecretParameters_DeepCopyInto_exact.
Qed.

End ExactCopies.

(** X12.  The copy is a snapshot: whatever is later written to any location
    of the original (a pointer target, the label map, the array under its
    Tags slice, the struct itself), the copy denotes the value it was made
    of. *)
Theorem SecretParameters_DeepCopy_snapshot (h : heap) (p : option loc)
    (v : option SecretParametersValue) :
  valueOf h p = Some v ->
  exists out h',
    SecretParameters_DeepCopy p h = Some (out, h')
    /\ valueOf h' out = Some v
    /\ forall k c, k ∈ storageOf h' p -> valueOf (<[k:=c]> h') out = Some v.
Proof.
  unfold valueOf. intros Hv.
  apply fmap_Some in Hv as ([v0 ls] & Hrd & ->). simpl.
  destruct (copies_deep _ _ readSecretParameters_framed
              readSecretParameters_bounded SecretParameters_DeepCopy_copies
              h p v0 ls Hrd)
    as (out & h' & ls' & Hrun & _ & Hcopy & Hkept & _ & _ & Hsnap).
  exists out, h'. unfold storageOf. rewrite Hcopy, Hkept. simpl.
  split_and!; [exact Hrun | reflexivity |].
  intros k c Hk. by rewrite (Hsnap k c Hk).
Qed.

(** X13.  DeepCopy only allocates: every cell that existed before the
    call, whether or not it belongs to the copied value, holds afterwards
    what it held, at the same location. *)
Theorem SecretParameters_DeepCopy_only_allocates (h : heap) (p : option loc)
    (v : option SecretParametersValue) :
  valueOf h p = Some v ->
  exists out h',
    SecretParameters_DeepCopy p h = Some (out, h')
    /\ length h <= length h'
    /\ take (length h) h' = h
    /\ forall k, k < length h -> h' !! k = h !! k.
Proof.
  unfold valueOf. intros Hv.
  apply fmap_Some in Hv as ([v0 ls] & Hrd & ->).
  destruct (SecretParameters_DeepCopy_copies h p v0 ls Hrd)
    as (out & h' & Hrun & [t ->] & _).
  exists out, (h ++ t). split_and!.
  - exact Hrun.
  - rewrite length_app. lia.
  - by rewrite take_app_length.
  - intros k Hk. by apply lookup_app_l.
Qed.

(** X14.  DeepCopy allocates exactly one new cell for each location read
    through the original, and the copy occupies exactly these new cells,
    each once: sharing inside the original (two fields pointing at one
    cell) is not reproduced in the copy. *)
Theorem SecretParameters_DeepCopy_unshares (h : heap) (p : option loc)
    (v : option SecretParametersValue) :
  valueOf h p = Some v ->
  exists out h',
    SecretParameters_DeepCopy p h = Some (out, h')
    /\ length h' = length h + length (storageOf h p)
    /\ storageOf h' out = seq (length h) (length (storageOf h p))
    /\ NoDup (storageOf h' out).
Proof.
  unfold valueOf. intros Hv.
  apply fmap_Some in Hv as ([v0 ls] & Hrd & ->).
  destruct (SecretParameters_DeepCopy_exact h p v0 ls Hrd)
    as (out & t & Hrun & Hlen & Hcopy).
  exists out, (h ++ t). unfold storageOf. rewrite Hrd, Hcopy.
  split_and!; [exact Hrun | rewrite length_app; lia | reflexivity | apply NoDup_seq].
Qed.

(** X15.  The copy of a Tags slice is cut to the slice: whatever the array
    under the original holds before its first index or past its length, the
    copy is a slice from index 0 over a fresh array of exactly the
    elements of the original slice; a nil slice is copied as nil. *)
Theorem Tags_copy_window (h : heap) (s : Slice) (a : list Tag) :
  h !! array s = Some (VTags a) ->
  offset s + len s <= length a ->
  copyTags (Some s) h =
    Some (Some (mkSlice (length h) 0 (len s)),
          h ++ [VTags (take (len s) (drop (offset s) a))])
  /\ length (take (len s) (drop (offset s) a)) = len s
  /\ copyTags None h = Some (None, h).
Proof.
  intros Hl Hin. split_and!.
  - by apply copyTags_runs.
  - rewrite length_take, length_drop. lia.
  - reflexivity.
Qed.

(** X16.  SecretSelector.DeepCopy is deep: nil gives nil; otherwise the
    result is a non-nil pointer denoting the same selector, while the
    original still denotes its own; the two occupy disjoint storage, and a
    write to either leaves the value of the other as it was. *)
Theorem SecretSelector_DeepCopy_deep (h : heap) (p : option loc)
    (v : option SecretSelectorValue) (ls : list loc) :
  readSecretSelector h p = Some (v, ls) ->
  exists out h' ls',
    SecretSelector_DeepCopy p h = Some (out, h')
    /\ (p = None -> out = None /\ h' = h)
    /\ (is_Some p -> is_Some out)
    /\ readSecretSelector h' out = Some (v, ls')
    /\ readSecretSelector h' p = Some (v, ls)
    /\ (forall k, k ∈ ls' -> k ∉ ls)
    /\ (forall k c, k ∈ ls' -> readSecretSelector (<[k:=c]> h') p = Some (v, ls))
    /\ (forall k c, k ∈ ls -> readSecretSelector (<[k:=c]> h') out = Some (v, ls')).
Proof.
  intros Hrd.
  destruct (copies_deep _ _ readSecretSelector_framed readSecretSelector_bounded
              SecretSelector_DeepCopy_copies h p v ls Hrd)
    as (out & h' & ls' & Hrun & _ & Hcopy & Hkept & Hdisj & Hmut & Hsnap).
  exists out, h', ls'. split_and!; try done.
  - intros ->. simpl in Hrun. by inversion Hrun.
  - by apply (readPtr_is_Some _ _ _ _ _ _ _ _ _ Hrd Hcopy).
Qed.

(** X17.  Tag.DeepCopy is deep: nil gives nil; the copy of a tag, also of
    one that is an element of the array under a Tags slice, is a pointer to
    a cell of its own holding the same tag, and a write to the array leaves
    the copy as it was, as a write to the copy leaves the array. *)
Theorem Tag_DeepCopy_deep (h : heap) (p : option (loc * nat))
    (v : option Tag) (ls : list loc) :
  readTag h p = Some (v, ls) ->
  exists out h' ls',
    Tag_DeepCopy p h = Some (out, h')
    /\ (p = None -> out = None /\ h' = h)
    /\ (is_Some p -> out = Some (length h, 0))
    /\ readTag h' out = Some (v, ls')
    /\ readTag h' p = Some (v, ls)
    /\ (forall k, k ∈ ls' -> k ∉ ls)
    /\ (forall k c, k ∈ ls' -> readTag (<[k:=c]> h') p = Some (v, ls))
    /\ (forall k c, k ∈ ls -> readTag (<[k:=c]> h') out = Some (v, ls')).
Proof.
  intros Hrd.
  destruct (copies_deep _ _ readTag_framed readTag_bounded Tag_DeepCopy_copies
              h p v ls Hrd)
    as (out & h' & ls' & Hrun & _ & Hcopy & Hkept & Hdisj & Hmut & Hsnap).
  exists out, h', ls'. split_and!; try done.
  - intros ->. simpl in Hrun. by inversion Hrun.
  - intros [[l i] ->]. unfold readTag in Hrd.
    destruct (h !! l) as [c|] eqn:Hl; [|discriminate].
    destruct c; try discriminate.
    destruct (a !! i) as [t|] eqn:Hi; [|discriminate].
    rewrite (Tag_DeepCopy_runs _ _ _ _ _ Hl Hi) in Hrun. by inversion Hrun.
Qed.

(** X18.  SecretObservation.DeepCopyInto is deep: the three dates of the
    result denote the instants of the original (nil for nil), the result
    occupies storage disjoint from the original's, and a write to either
    leaves the dates of the other as they were. *)
Theorem SecretObservation_DeepCopyInto_deep (h : heap) (s : SecretObservation)
    (v : SecretObservationValue) (ls : list loc) :
  readSecretObservationFields h s = Some (v, ls) ->
  exists out h' ls',
    SecretObservation_DeepCopyInto s h = Some (out, h')
    /\ readSecretObservationFields h' out = Some (v, ls')
    /\ readSecretObservationFields h' s = Some (v, ls)
    /\ (forall k, k ∈ ls' -> k ∉ ls)
    /\ (forall k c, k ∈ ls' ->
          readSecretObservationFields (<[k:=c]> h') s = Some (v, ls))
    /\ (forall k c, k ∈ ls ->
          readSecretObservationFields (<[k:=c]> h') out = Some (v, ls')).
Proof.
  intros Hrd.
  destruct (copies_deep _ _ readSecretObservationFields_framed
              readSecretObservationFields_bounded
              SecretObservation_DeepCopyInto_copies h s v ls Hrd)
    as (out & h' & ls' & Hrun & _ & Hcopy & Hkept & Hdisj & Hmut & Hsnap).
  exists out, h', ls'. split_and!; done.
Qed.

(** ** The further statements at concrete heaps *)

Lemma SecretParameters_DeepCopy_snapshot_witness :
  valueOf exampleHeap exampleSecret = Some (Some exampleValue)
  /\ exists out h',
       SecretParameters_DeepCopy exampleSecret exampleHeap = Some (out, h')
       /\ forall k c, k ∈ storageOf h' exampleSecret ->
            valueOf (<[k:=c]> h') out = Some (Some exampleValue).
Proof.
  assert (Hv : valueOf exampleHeap exampleSecret = Some (Some exampleValue))
    by (vm_compute; reflexivity).
  split; [exact Hv|].
  destruct (SecretParameters_DeepCopy_snapshot exampleHeap exampleSecret _ Hv)
    as (out & h' & Hrun & _ & Hsnap).
  exists out, h'. split; assumption.
Defined.

Lemma SecretParameters_DeepCopy_only_allocates_witness :
  valueOf exampleHeap exampleSecret = Some (Some exampleValue)
  /\ exists out h',
       SecretParameters_DeepCopy exampleSecret exampleHeap = Some (out, h')
       /\ take 12 h' = exampleHeap.
Proof.
  assert (Hv : valueOf exampleHeap exampleSecret = Some (Some exampleValue))
    by (vm_compute; reflexivity).
  split; [exact Hv|].
  destruct (SecretParameters_DeepCopy_only_allocates exampleHeap exampleSecret _ Hv)
    as (out & h' & Hrun & _ & Htake & _).
  exists out, h'. split; assumption.
Defined.

Lemma SecretParameters_DeepCopy_unshares_witness :
  storageOf sharingHeap sharingSecret = [1; 0; 0]
  /\ exists out h',
       SecretParameters_DeepCopy sharingSecret sharingHeap = Some (out, h')
       /\ storageOf h' out = [2; 3; 4].
Proof.
  split; [vm_compute; reflexivity|].
  assert (Hv : valueOf sharingHeap sharingSecret
               = Some (Some (mkSecretParametersValue "eu-west-1"
                               (Some "shared") (Some "shared")
                               None None None None None None)))
    by (vm_compute; reflexivity).
  destruct (SecretParameters_DeepCopy_unshares sharingHeap sharingSecret _ Hv)
    as (out & h' & Hrun & _ & Hst & _).
  exists out, h'. split; assumption.
Defined.

Lemma Tags_copy_window_witness :
  copyTags (Some window) windowHeap =
    Some (Some (mkSlice 1 0 2),
          windowHeap ++ [VTags [mkTag "b" "2"; mkTag "c" "3"]]).
Proof.
  refine (proj1 (Tags_copy_window windowHeap window _ eq_refl _)).
  simpl. lia.
Defined.

Lemma SecretSelector_DeepCopy_deep_witness :
  exists out h' ls',
    SecretSelector_DeepCopy (Some 7) exampleHeap = Some (out, h')
    /\ readSecretSelector h' out =
         Some (Some (mkSecretSelectorValue
                       (Some (mkSecretReference "db" "default")) "password"), ls')
    /\ forall k c, k ∈ [7; 6] -> readSecretSelector (<[k:=c]> h') out
         = Some (Some (mkSecretSelectorValue
                         (Some (mkSecretReference "db" "default")) "password"), ls').
Proof.
  destruct (SecretSelector_DeepCopy_deep exampleHeap (Some 7) _ _ eq_refl)
    as (out & h' & ls' & Hrun & _ & _ & Hcopy & _ & _ & _ & Hsnap).
  exists out, h', ls'. split_and!; assumption.
Defined.

Lemma Tag_DeepCopy_deep_witness :
  exists out h' ls',
    Tag_DeepCopy (Some (0, 2)) windowHeap = Some (out, h')
    /\ out = Some (1, 0)
    /\ readTag h' out = Some (Some (mkTag "c" "3"), ls')
    /\ forall c, readTag (<[0:=c]> h') out = Some (Some (mkTag "c" "3"), ls').
Proof.
  destruct (Tag_DeepCopy_deep windowHeap (Some (0, 2)) _ _ eq_refl)
    as (out & h' & ls' & Hrun & _ & Hsome & Hcopy & _ & _ & _ & Hsnap).
  exists out, h', ls'. split_and!; try assumption.
  - apply Hsome. by eexists.
  - intros c. apply Hsnap. apply list_elem_of_here.
Defined.

Lemma SecretObservation_DeepCopyInto_deep_witness :
  exists out h' ls',
    SecretObservation_DeepCopyInto observation observationHeap = Some (out, h')
    /\ readSecretObservationFields h' out =
         Some (mkSecretObservationValue (Some 1600000000%Z) None (Some 1700000000%Z), ls')
    /\ forall k, k ∈ ls' -> k ∉ [0; 1].
Proof.
  destruct (SecretObservation_DeepCopyInto_deep observationHeap observation _ _ eq_refl)
    as (out & h' & ls' & Hrun & Hcopy & _ & Hdisj & _).
  exists out, h', ls'. split_and!; assumption.
Defined.
